(** * Physics perception: a shallow embedding of the perception model,
      the node caches, selectors and solutions of eweitnauer/physics_perception.

    Conventions of the embedding.
    - Measured physical quantities (speeds, distances, angles, edge lengths)
      are rationals [Q]; the comparisons of the source become decidable
      boolean tests on them.
    - Activities (fuzzy memberships, some of them sigmoids built with
      [Math.exp]) are reals [R]; [Rgtb]/[Rgeb] embed the comparisons
      [a > t] and [a >= t] of the source.
    - Labels and percept values are strings, as in the source.
    - The physics engine and the geometry layer are external: what the
      source reads from them is given as data (records of observations). *)

From Stdlib Require Import QArith Qabs Qreals Reals Lra Lia Sorted Qminmax.
From stdpp Require Import base gmap strings list.

Open Scope string_scope.

(** Boolean comparisons on activities. *)
Definition Rgtb (x y : R) : bool := if Rlt_dec y x then true else false.
Definition Rgeb (x y : R) : bool := if Rle_dec y x then true else false.

(** Strict comparison on rationals. *)
Definition Qlt_bool (x y : Q) : bool := negb (Qle_bool y x).

(** [1/(1+exp(a*(m-x)))], the sigmoid shape used by the memberships. *)
Definition sigmoid (a m x : R) : R := (1 / (1 + exp (a * (m - x))))%R.

(* ------------------------------------------------------------------ *)
(** ** Shapes (src/features/shape-attr.js, square-attr.js, rectangle-attr.js) *)

(** A polygon as the geometry layer hands it over after [order_vertices]:
    its points, its interior angles [angle(i)] and its edge lengths in
    vertex order.  Angles are held in degrees; the source compares
    [angle(i)] in radians against [110*PI/180] and [70*PI/180], which is the
    same test up to the monotone factor [PI/180]. *)
Record Polygon := {
  closed : bool;
  pts : list (Q * Q);
  angles_deg : list Q;
  edge_lengths : list Q
}.

Inductive Shape :=
| SPolygon (p : Polygon)
| SCircle
| SOtherShape.

Definition angle (p : Polygon) (i : nat) : Q := nth i (angles_deg p) 0%Q.

Fixpoint insertQ (x : Q) (l : list Q) : list Q :=
  match l with
  | [] => [x]
  | y :: l' => if Qle_bool x y then x :: l else y :: insertQ x l'
  end.

Fixpoint sortQ (l : list Q) : list Q :=
  match l with
  | [] => []
  | x :: l' => insertQ x (sortQ l')
  end.

(** [poly.get_edge_lengths(true)]: the edge lengths sorted ascending. *)
Definition get_edge_lengths_sorted (p : Polygon) : list Q := sortQ (edge_lengths p).

(** [edges[0]/edges[3] < 0.7] on JavaScript numbers: a zero denominator
    gives [Infinity] or [NaN], and neither is [< 0.7]. *)
Definition ratio_lt (num den c : Q) : bool :=
  if Qeq_bool den 0 then false else Qlt_bool (num / den) c.

(** [ShapeAttribute.isRectangle] (the same code is repeated in
    [SquareAttribute] and [RectangleAttribute]). *)
Definition isRectangle (p : Polygon) : bool :=
  Nat.eqb (length (pts p)) 4 &&
  forallb (fun i => negb (Qlt_bool 110 (angle p i) || Qlt_bool (angle p i) 70))
          (seq 0 (length (pts p))).

Definition edges_ratio_lt_07 (p : Polygon) : bool :=
  let edges := get_edge_lengths_sorted p in
  ratio_lt (nth 0 edges 0%Q) (nth 3 edges 0%Q) (7 # 10).

(** [ShapeAttribute.determineShape] *)
Definition determineShape (s : Shape) : string :=
  match s with
  | SPolygon p =>
      if negb (closed p) then "unknown"
      else if Nat.eqb (length (pts p)) 3 then "triangle"
      else if isRectangle p then
        (if edges_ratio_lt_07 p then "rectangle" else "square")
      else "unknown"
  | SCircle => "circle"
  | SOtherShape => "unknown"
  end.

(** [ShapeAttribute]: [val] is the shape name. *)
Definition shape_val (s : Shape) : string := determineShape s.
Definition shape_get_activity (s : Shape) : R :=
  if String.eqb (shape_val s) "?" then 0%R else 1%R.
Definition shape_get_label (s : Shape) : string := shape_val s.

(** [SquareAttribute.squareness] *)
Definition squareness (s : Shape) : R :=
  match s with
  | SPolygon p =>
      if negb (closed p) then 0%R
      else if isRectangle p then
        (if edges_ratio_lt_07 p then (3 / 10)%R else 1%R)
      else 0%R
  | _ => 0%R
  end.

(** [RectangleAttribute.rectness] *)
Definition rectness (s : Shape) : R :=
  match s with
  | SPolygon p =>
      if negb (closed p) then 0%R
      else if isRectangle p then
        (if edges_ratio_lt_07 p then 1%R else (4 / 10)%R)
      else 0%R
  | _ => 0%R
  end.

Definition square_get_activity (s : Shape) : R := squareness s.
Definition rect_get_activity (s : Shape) : R := rectness s.

(* ------------------------------------------------------------------ *)
(** ** Stability (src/features/stability-attr.js) *)

(** What the oracle reports at the end of one [analyzeFuture(0.3, push, ...)]
    call: the body's speed, [pscene.getBodyDistance(body)] and its angle. *)
Record PushOutcome := {
  out_speed : Q;
  out_dist : Q;
  out_angle : Q
}.

(** The body and the simulations the oracle runs for it: [simulate_push dir
    mag] is the outcome of pushing with [applyCentralImpulse(body, dir, mag)]
    and stepping 0.3 s. *)
Record StabBody := {
  body_static : bool;
  body_speed : Q;
  body_angle : Q;
  body_is_circle : bool;
  simulate_push : string -> string -> PushOutcome
}.

Section Stability.
(** [Point.norm_angle], from the geometry layer. *)
Variable norm_angle : Q -> Q.

Definition max_initial_v : Q := 1 # 4.
Definition max_v : Q := 2 # 5.
Definition max_dx : Q := 1 # 5.
Definition max_drot_circle : Q := 1047 # 1000.
Definition max_drot : Q := 157 # 1000.

(** The inner [is_stable(dir, soft)] closure of [checkStability]. *)
Definition is_stable (body : StabBody) (dir : string) (soft : bool) : bool :=
  let rot0 := body_angle body in
  let o := simulate_push body dir (if soft then "small" else "medium") in
  let v := out_speed o in
  let factor := if soft then (2 # 3) else 1%Q in
  if Qle_bool (max_v * factor) v then false
  else
    let dx := out_dist o in
    if Qle_bool (max_dx * factor) dx then false
    else
      let drot := norm_angle (out_angle o - rot0)%Q in
      if (body_is_circle body && Qle_bool (max_drot_circle * factor) (Qabs drot))
         || (negb (body_is_circle body) && Qle_bool (max_drot * factor) (Qabs drot))
      then false
      else true.

(** [StabilityAttribute.prototype.checkStability] *)
Definition checkStability (body : StabBody) : string :=
  if body_static body then "stable"
  else
    let v := body_speed body in
    if Qlt_bool max_initial_v v then "moving"
    else if is_stable body "left" false && is_stable body "right" false then "stable"
    else if is_stable body "left" true && is_stable body "right" true then "slightly unstable"
    else "unstable".

(** [StabilityAttribute.prototype.get_label]; [None] is [undefined]. *)
Definition stability_get_label (val : string) : option string :=
  if String.eqb val "stable" || String.eqb val "slightly unstable" then Some "stable"
  else if String.eqb val "moving" || String.eqb val "unstable" then Some "unstable"
  else None.
End Stability.

(* ------------------------------------------------------------------ *)
(** ** Supports (src/features/supports-rel.js) *)

(** The percepts [checkSupports] reads for object nodes (numbered):
    - [moves_act b]: [B.getAttr('moves').get_activity()];
    - [touch_act a b]: [A.getRel('touch', {other: B}).get_activity()];
    - [moves_act_without a b]: the activity of a fresh [MovesAttribute(B.obj)]
      built inside [analyzeFuture(0, before, ...)], where [before] wakes the
      scene and calls [bodyA.SetActive(false)];
    - [ontop_act b a]: [B.getRel('on_top_of', {other: A}).get_activity()];
    - [close_act a b]: [A.getRel('close', {other: B}).get_activity()];
    - [stability_label b]: [B.getAttr('stability').get_label()];
    - [stability_label_without a b]: the label of a fresh
      [StabilityAttribute(B.obj)] built in the same sandbox. *)
Record SupportsEnv := {
  moves_act : nat -> R;
  touch_act : nat -> nat -> R;
  moves_act_without : nat -> nat -> R;
  ontop_act : nat -> nat -> R;
  close_act : nat -> nat -> R;
  stability_label : nat -> option string;
  stability_label_without : nat -> nat -> option string
}.

Definition moves_threshold : R := (1 / 2)%R.
Definition touches_threshold : R := (1 / 2)%R.
Definition ontopof_threshold : R := (1 / 2)%R.
Definition close_threshold : R := (1 / 2)%R.

(** [SupportsRelationship.prototype.checkSupports] *)
Definition checkSupports (env : SupportsEnv) (A B : nat) : string :=
  if Nat.eqb A B then "not"
  else if Rgtb (moves_act env B) moves_threshold then "not"
  else
    let touch := Rgtb (touch_act env A B) touches_threshold in
    let B_moves := Rgtb (moves_act_without env A B) moves_threshold in
    if B_moves then (if touch then "directly" else "indirectly")
    else
      let ontop := Rgtb (ontop_act env B A) ontopof_threshold in
      if ontop then "stabilizes"
      else
        let near := Rgtb (close_act env A B) close_threshold in
        if near then
          let B_stable := bool_decide (stability_label env B = Some "stable") in
          if B_stable then
            let B_stable_without_A :=
              bool_decide (stability_label_without env A B = Some "stable") in
            if negb B_stable_without_A then "stabilizes" else "not"
          else "not"
        else "not".

(** [SupportsRelationship.prototype.get_activity]; [None] is the [throw]. *)
Definition supports_get_activity (val : string) : option R :=
  if String.eqb val "directly" then Some 1%R
  else if String.eqb val "indirectly" then Some (7 / 10)%R
  else if String.eqb val "stabilizes" then Some (4 / 10)%R
  else if String.eqb val "not" then Some 0%R
  else None.

(* ------------------------------------------------------------------ *)
(** ** Readings of the spec's sentences, compared with the code above *)

(** The four-level decision procedure of [supports] as the spec words it. *)
Definition supports_spec (env : SupportsEnv) (A B : nat) : string :=
  if Nat.eqb A B || Rgtb (moves_act env B) (1 / 2) then "not"
  else if Rgtb (moves_act_without env A B) (1 / 2) then
    (if Rgtb (touch_act env A B) (1 / 2) then "directly" else "indirectly")
  else if Rgtb (ontop_act env B A) (1 / 2) then "stabilizes"
  else if Rgtb (close_act env A B) (1 / 2)
          && bool_decide (stability_label env B = Some "stable")
          && negb (bool_decide (stability_label_without env A B = Some "stable"))
  then "stabilizes"
  else "not".

(** The activity the spec maps each level to. *)
Definition supports_level_activity (v : string) : R :=
  if String.eqb v "directly" then 1%R
  else if String.eqb v "indirectly" then (7 / 10)%R
  else if String.eqb v "stabilizes" then (4 / 10)%R
  else 0%R.

(** A push passes when speed, moved distance and absolute rotation change
    stay below the thresholds, all scaled by [scale]. *)
Definition push_passes (norm_angle : Q -> Q) (b : StabBody) (dir mag : string) (scale : Q) : bool :=
  let o := simulate_push b dir mag in
  Qlt_bool (out_speed o) ((2 # 5) * scale) &&
  Qlt_bool (out_dist o) ((1 # 5) * scale) &&
  Qlt_bool (Qabs (norm_angle (out_angle o - body_angle b)%Q))
           ((if body_is_circle b then 1047 # 1000 else 157 # 1000) * scale).

(** The stability procedure as the spec words it. *)
Definition stability_spec (norm_angle : Q -> Q) (b : StabBody) : string :=
  if body_static b then "stable"
  else if Qlt_bool (1 # 4) (body_speed b) then "moving"
  else if push_passes norm_angle b "left" "medium" 1 && push_passes norm_angle b "right" "medium" 1
  then "stable"
  else if push_passes norm_angle b "left" "small" (2 # 3) && push_passes norm_angle b "right" "small" (2 # 3)
  then "slightly unstable"
  else "unstable".

(* ------------------------------------------------------------------ *)
(** ** Selectors (src/selector.js) *)

(** [Selector.AttrMatcher]: [type] is ["object"] or ["group"] and
    [constant] copies the feature's flag, both set by the constructor. *)
Record AttrMatcher := mkAttrMatcher {
  am_key : string;
  am_label : string;
  am_active : bool;
  am_time : string;
  am_type : string;
  am_constant : bool
}.

(** [Selector] and [Selector.RelMatcher]: a selector holds the three
    matcher lists and the [unique] flag; a relation matcher holds the
    selector [other_sel] for the partner. *)
Inductive Selector : Type :=
| mkSelector (obj_attrs grp_attrs : list AttrMatcher) (rels : list RelMatcher) (unique : bool)
with RelMatcher : Type :=
| mkRelMatcher (other_sel : Selector) (rm_key rm_label : string) (rm_active : bool) (rm_time : string).

Definition obj_attrs (s : Selector) : list AttrMatcher :=
  match s with mkSelector oa _ _ _ => oa end.
Definition grp_attrs (s : Selector) : list AttrMatcher :=
  match s with mkSelector _ ga _ _ => ga end.
Definition rels (s : Selector) : list RelMatcher :=
  match s with mkSelector _ _ rs _ => rs end.
Definition unique (s : Selector) : bool :=
  match s with mkSelector _ _ _ u => u end.

Definition other_sel (r : RelMatcher) : Selector :=
  match r with mkRelMatcher os _ _ _ _ => os end.
Definition rm_key (r : RelMatcher) : string :=
  match r with mkRelMatcher _ k _ _ _ => k end.
Definition rm_label (r : RelMatcher) : string :=
  match r with mkRelMatcher _ _ l _ _ => l end.
Definition rm_active (r : RelMatcher) : bool :=
  match r with mkRelMatcher _ _ _ a _ => a end.
Definition rm_time (r : RelMatcher) : string :=
  match r with mkRelMatcher _ _ _ _ t => t end.

(** [new Selector(unique)] *)
Definition new_Selector (u : bool) : Selector := mkSelector [] [] [] u.

(** [Selector.AttrMatcher.prototype.equals] *)
Definition attr_equals (a b : AttrMatcher) : bool :=
  String.eqb (am_key a) (am_key b) && String.eqb (am_label a) (am_label b) &&
  Bool.eqb (am_active a) (am_active b) && String.eqb (am_time a) (am_time b).

(** [differs(field)] of [Selector.prototype.equals], negated: every matcher
    of ours is equal to some matcher of theirs. *)
Definition all_in {A} (eq : A -> A -> bool) (ours theirs : list A) : bool :=
  forallb (fun x => existsb (fun y => eq x y) theirs) ours.

(** [Selector.prototype.equals] and [Selector.RelMatcher.prototype.equals].
    The [this === other] shortcut is left out: it only answers [true] on
    identical objects, where the full comparison also answers [true]
    ([sel_equals_refl] below). *)
Fixpoint sel_equals (s t : Selector) {struct s} : bool :=
  match s with
  | mkSelector oa ga rs _ =>
      Nat.eqb (length oa) (length (obj_attrs t)) &&
      Nat.eqb (length ga) (length (grp_attrs t)) &&
      Nat.eqb (length rs) (length (rels t)) &&
      all_in attr_equals ga (grp_attrs t) &&
      all_in attr_equals oa (obj_attrs t) &&
      forallb (fun r => existsb (fun r' => rel_equals r r') (rels t)) rs
  end
with rel_equals (r r' : RelMatcher) {struct r} : bool :=
  match r with
  | mkRelMatcher os k l a tm =>
      String.eqb k (rm_key r') && String.eqb l (rm_label r') &&
      Bool.eqb a (rm_active r') && String.eqb tm (rm_time r') &&
      sel_equals os (other_sel r')
  end.

(** The loop of [add_attr] and [add_rel]: replace the first element that
    [same] accepts, or push at the end. *)
Fixpoint replace_or_push {A} (same : A -> bool) (x : A) (l : list A) : list A :=
  match l with
  | [] => [x]
  | y :: l' => if same y then x :: l' else y :: replace_or_push same x l'
  end.

(** The duplicate test of [Selector.prototype.add_attr] between a listed
    matcher [a] and the added one [m]; the source's third test is
    [attr.type === attr.type], which always holds. *)
Definition attr_same (a m : AttrMatcher) : bool :=
  String.eqb (am_key a) (am_key m) && String.eqb (am_time a) (am_time m)
  && String.eqb (am_type a) (am_type a).

(** [Selector.prototype.add_attr] *)
Definition add_attr (m : AttrMatcher) (s : Selector) : Selector :=
  match s with
  | mkSelector oa ga rs u =>
      if String.eqb (am_type m) "group"
      then mkSelector oa (replace_or_push (fun a => attr_same a m) m ga) rs u
      else mkSelector (replace_or_push (fun a => attr_same a m) m oa) ga rs u
  end.

(** The duplicate test of [Selector.prototype.add_rel] between a listed
    matcher [r] and the added one [m]. *)
Definition rel_same (r m : RelMatcher) : bool :=
  String.eqb (rm_key r) (rm_key m) && String.eqb (rm_time r) (rm_time m)
  && sel_equals (other_sel r) (other_sel m).

(** [Selector.prototype.add_rel] *)
Definition add_rel (m : RelMatcher) (s : Selector) : Selector :=
  match s with
  | mkSelector oa ga rs u => mkSelector oa ga (replace_or_push (fun r => rel_same r m) m rs) u
  end.

Definition add_attrs (l : list AttrMatcher) (s : Selector) : Selector :=
  fold_left (fun acc a => add_attr a acc) l s.
Definition add_rels (l : list RelMatcher) (s : Selector) : Selector :=
  fold_left (fun acc r => add_rel r acc) l s.

(** [Selector.prototype.mergedWith] *)
Definition mergedWith (s o : Selector) : Selector :=
  let sel := new_Selector false in
  let sel := add_attrs (obj_attrs s) sel in
  let sel := add_attrs (obj_attrs o) sel in
  let sel := add_attrs (grp_attrs s) sel in
  let sel := add_attrs (grp_attrs o) sel in
  let sel := add_rels (rels s) sel in
  add_rels (rels o) sel.

(** [Selector.prototype.clone] *)
Definition sel_clone (s : Selector) : Selector :=
  add_rels (rels s) (add_attrs (grp_attrs s) (add_attrs (obj_attrs s) (new_Selector (unique s)))).

(** The selectors a program can build through the selector API: the
    constructor, [add_attr]/[use_attr], [add_rel]/[use_rel], [mergedWith]
    and [clone]. *)
Inductive built : Selector -> Prop :=
| built_new u : built (new_Selector u)
| built_add_attr m s : built s -> built (add_attr m s)
| built_add_rel m s : built s -> built (add_rel m s)
| built_merged s o : built s -> built o -> built (mergedWith s o)
| built_clone s : built s -> built (sel_clone s).

(** Induction over selectors and their nested relation matchers. *)
Section SelectorInd.
Variable P : Selector -> Prop.
Variable Pr : RelMatcher -> Prop.
Hypothesis H_sel : forall oa ga rs u, Forall Pr rs -> P (mkSelector oa ga rs u).
Hypothesis H_rel : forall os k l a t, P os -> Pr (mkRelMatcher os k l a t).

Fixpoint selector_ind' (s : Selector) : P s :=
  match s with
  | mkSelector oa ga rs u =>
      H_sel oa ga rs u
        ((fix go (l : list RelMatcher) : Forall Pr l :=
            match l with
            | [] => List.Forall_nil Pr
            | r :: l' => List.Forall_cons Pr r l' (relmatcher_ind' r) (go l')
            end) rs)
  end
with relmatcher_ind' (r : RelMatcher) : Pr r :=
  match r with
  | mkRelMatcher os k l a t => H_rel os k l a t (selector_ind' os)
  end.
End SelectorInd.

(** No matcher of a list is a duplicate, in the sense of [same], of a
    matcher listed after it: the state [add_attr] and [add_rel] keep. *)
Fixpoint pairwise_fresh {A} (same : A -> A -> bool) (l : list A) : Prop :=
  match l with
  | [] => True
  | x :: l' => Forall (fun y => same x y = false) l' /\ pairwise_fresh same l'
  end.

(** The shape of a selector built through the API: no duplicates in any
    matcher list, object matchers in [obj_attrs] and group matchers in
    [grp_attrs]. *)
Definition sel_wf (s : Selector) : Prop :=
  pairwise_fresh attr_same (obj_attrs s) /\
  Forall (fun a => String.eqb (am_type a) "group" = false) (obj_attrs s) /\
  pairwise_fresh attr_same (grp_attrs s) /\
  Forall (fun a => String.eqb (am_type a) "group" = true) (grp_attrs s) /\
  pairwise_fresh rel_same (rels s).

(** What [RelMatcher.matches] and [AttrMatcher.matches] read from the
    object nodes: the activity and the label of
    [node.getAttr(key, {time})] and of [node.getRel(key, {other, time})]
    (never [false] there, since [cache_only] is not set). *)
Record PerceptView := mkPerceptView { pv_activity : R; pv_label : string }.

Record SelectEnv := {
  scene_objs : list nat;
  get_attr_view : nat -> string -> string -> PerceptView;
  get_rel_view : nat -> string -> nat -> string -> PerceptView
}.

Definition activation_threshold : R := (1 / 2)%R.

Section Matching.
Variable env : SelectEnv.

(** [Selector.AttrMatcher.prototype.matches] *)
Definition attr_matches (m : AttrMatcher) (node : nat) : bool :=
  let attr := get_attr_view env node (am_key m) (am_time m) in
  let active := Rgeb (pv_activity attr) activation_threshold in
  Bool.eqb active (am_active m) && String.eqb (pv_label attr) (am_label m).

(** [Selector.prototype.matchesObject(object, others, test_fn)] with a
    [test_fn]: the relations of the selector are not used. *)
Definition matchesObject_test (s : Selector) (node : nat) (test_fn : nat -> bool) : bool :=
  forallb (fun a => attr_matches a node) (obj_attrs s) && test_fn node.

(** [Selector.RelMatcher.prototype.matches(node, others)]; [None] is the
    [throw] on an [other_sel] with relation matchers, and [others = None]
    is an omitted argument. *)
Definition rel_matches (r : RelMatcher) (node : nat) (others : option (list nat)) : option bool :=
  if negb (Nat.eqb (length (rels (other_sel r))) 0) then None
  else
    let others := match others with
                  | Some l => l
                  | None => filter (fun on => negb (Nat.eqb on node)) (scene_objs env)
                  end in
    let test_fn := fun other =>
      if Nat.eqb other node then false
      else
        let rel := get_rel_view env node (rm_key r) other (rm_time r) in
        let active := Rgeb (pv_activity rel) activation_threshold in
        Bool.eqb active (rm_active r) && String.eqb (pv_label rel) (rm_label r) in
    let match_fn := fun other => matchesObject_test (other_sel r) other test_fn in
    let matching_others := filter match_fn others in
    if negb (rm_active r) then Some (Nat.eqb (length matching_others) (length others))
    else if unique (other_sel r) && negb (Nat.eqb (length matching_others) 1) then Some false
    else Some (Nat.ltb 0 (length matching_others)).
End Matching.

(* ------------------------------------------------------------------ *)
(** ** Solutions (src/solution.js) *)

Record Solution := {
  sol_sel : Selector;
  sol_mode : string;
  main_side : string;
  other_side : option string;
  matchedAgainst : list nat;
  lchecks : nat;
  rchecks : nat;
  lmatches : nat;
  rmatches : nat;
  scene_pair_count : nat;
  selects_single_objs : bool
}.

(** [main_side || 'both']: [None] is an omitted argument. *)
Definition side_or_both (ms : option string) : string :=
  match ms with
  | Some s => if String.eqb s "" then "both" else s
  | None => "both"
  end.

(** [{left: 'right', right: 'left'}[main_side]] *)
Definition opposite_side (s : string) : option string :=
  if String.eqb s "left" then Some "right"
  else if String.eqb s "right" then Some "left"
  else None.

(** [Solution.prototype.setMainSide] *)
Definition setMainSide (ms : option string) (s : Solution) : Solution :=
  let side := side_or_both ms in
  {| sol_sel := sol_sel s; sol_mode := sol_mode s; main_side := side;
     other_side := opposite_side side; matchedAgainst := matchedAgainst s;
     lchecks := lchecks s; rchecks := rchecks s; lmatches := lmatches s;
     rmatches := rmatches s; scene_pair_count := scene_pair_count s;
     selects_single_objs := selects_single_objs s |}.

(** [new Solution(selector, main_side, mode)] *)
Definition new_Solution (sel : Selector) (ms : option string) (mode : option string) : Solution :=
  setMainSide ms
    {| sol_sel := sel;
       sol_mode := match mode with Some m => if String.eqb m "" then "exists" else m | None => "exists" end;
       main_side := ""; other_side := None; matchedAgainst := [];
       lchecks := 0; rchecks := 0; lmatches := 0; rmatches := 0;
       scene_pair_count := 8; selects_single_objs := true |}.

(** [Solution.prototype.isSolution] *)
Definition isSolution (s : Solution) : bool :=
  (Nat.eqb (rmatches s) 0 && Nat.eqb (lmatches s) (scene_pair_count s))
  || (Nat.eqb (lmatches s) 0 && Nat.eqb (rmatches s) (scene_pair_count s)).

(** One scene of a pair, as [checkScenePair] sees it: its [side] and the
    number of objects in [self.sel.applyToScene(scene)]. *)
Record SceneResult := mkSceneResult { scene_side : string; selected_count : nat }.

(** The body of the [pair.forEach] loop of [checkScenePair]. *)
Definition count_scene (s : Solution) (sc : SceneResult) : Solution :=
  let matches := negb (Nat.eqb (selected_count sc) 0) in
  let isl := String.eqb (scene_side sc) "left" in
  let isr := String.eqb (scene_side sc) "right" in
  {| sol_sel := sol_sel s; sol_mode := sol_mode s; main_side := main_side s;
     other_side := other_side s; matchedAgainst := matchedAgainst s;
     lchecks := if isl then S (lchecks s) else lchecks s;
     rchecks := if isr then S (rchecks s) else rchecks s;
     lmatches := if isl && matches then S (lmatches s) else lmatches s;
     rmatches := if isr && matches then S (rmatches s) else rmatches s;
     scene_pair_count := scene_pair_count s;
     selects_single_objs := if Nat.ltb 1 (selected_count sc) then false else selects_single_objs s |}.

Definition push_pair_id (pair_id : nat) (s : Solution) : Solution :=
  {| sol_sel := sol_sel s; sol_mode := sol_mode s; main_side := main_side s;
     other_side := other_side s; matchedAgainst := matchedAgainst s ++ [pair_id];
     lchecks := lchecks s; rchecks := rchecks s; lmatches := lmatches s;
     rmatches := rmatches s; scene_pair_count := scene_pair_count s;
     selects_single_objs := selects_single_objs s |}.

(** The [main_side] update at the end of [checkScenePair]. *)
Definition update_main_side (s : Solution) : Solution :=
  if Nat.eqb (lmatches s) 0 && Nat.eqb (rmatches s) (rchecks s) then setMainSide (Some "right") s
  else if Nat.eqb (rmatches s) 0 && Nat.eqb (lmatches s) (lchecks s) then setMainSide (Some "left") s
  else if Nat.ltb 0 (lmatches s) && Nat.eqb (rmatches s) (rchecks s) then setMainSide (Some "both") s
  else if Nat.ltb 0 (rmatches s) && Nat.eqb (lmatches s) (lchecks s) then setMainSide (Some "both") s
  else setMainSide (Some "fail") s.

(** [Solution.prototype.checkScenePair] (the selected groups it returns
    are the [SceneResult]s it is given). *)
Definition checkScenePair (pair : list SceneResult) (pair_id : nat) (s : Solution) : Solution :=
  update_main_side (push_pair_id pair_id (fold_left count_scene pair s)).

(** The solutions a program can reach: [new Solution] (also behind
    [clone] and [mergedWith]), [checkScenePair] and [setMainSide]. *)
Inductive sol_reachable : Solution -> Prop :=
| reach_new sel ms mode : sol_reachable (new_Solution sel ms mode)
| reach_check pair pid s : sol_reachable s -> sol_reachable (checkScenePair pair pid s)
| reach_setmain ms s : sol_reachable s -> sol_reachable (setMainSide ms s).

(* ------------------------------------------------------------------ *)
(** ** Feature registry (src/settings.js) *)

(** [pbpSettings.obj_attrs] and [pbpSettings.obj_rels], as
    [ObjectNode.attrs] and [ObjectNode.rels] hold them: each feature key
    maps to its constructor ([res.obj_attrs[attr.prototype.key] = attr]),
    and the value kept here is the truthiness of [ObjectNode.attrs[key].constant],
    the test of [getAttr] and [getRel]. The feature classes set [constant]
    on their prototype only ([X.prototype.constant = true] for circle,
    square, rect, triangle, shape, small, large, moves, hits, gets_hit and
    collides); no constructor has an own [constant] property, so the value
    read off it is [undefined] and the test is false for every key. *)
Definition obj_attrs_registry : gmap string bool :=
  list_to_map
    [("left_pos", false); ("left_most", false); ("right_pos", false);
     ("right_most", false); ("bottom_pos", false); ("top_pos", false);
     ("top_most", false); ("single", false); ("on_ground", false);
     ("circle", false); ("square", false); ("rect", false); ("triangle", false);
     ("shape", false); ("stability", false); ("small", false); ("large", false);
     ("moves", false); ("can_move_up", false)].

Definition obj_rels_registry : gmap string bool :=
  list_to_map
    [("above", false); ("below", false); ("left_of", false); ("right_of", false);
     ("beside", false); ("far", false); ("close", false); ("on_top_of", false);
     ("touch", false); ("hits", false); ("gets_hit", false); ("collides", false);
     ("supports", false)].

(* ------------------------------------------------------------------ *)
(** ** Object nodes and their perception cache (src/object-node.js) *)

(** A percept object: [pid] is its identity (a fresh one per [new]),
    [pother] the [other] shape of a relation, [measured_at] the oracle's
    named state when it was constructed. *)
Record Percept := mkPercept {
  pid : nat;
  pkey : string;
  pother : option nat;
  measured_at : option string
}.

(** A value of [this.times[time][key]]: an attribute percept or the list
    of relation percepts. *)
Inductive Entry :=
| EAttr (p : Percept)
| ERels (ps : list Percept).

(** The results [get] can return: [false], a percept, or a list. *)
Inductive GetResult :=
| RFalse
| RPercept (p : Percept)
| RList (ps : list Percept).

Definition entry_result (e : Entry) : GetResult :=
  match e with EAttr p => RPercept p | ERels ps => RList ps end.

(** An object node with the state of its oracle: [times], the oracle's
    [curr_state] and the supply of fresh percept identities. *)
Record NodeState := mkNodeState {
  times : gmap string (gmap string Entry);
  curr_state : option string;
  next_pid : nat;
  node_obj : nat
}.

(** The [opts] argument of [get]. *)
Record GetOpts := mkGetOpts {
  opt_time : option string;
  opt_other : option nat;
  opt_cache_only : bool;
  opt_get_all : bool
}.

(** JavaScript truthiness of a time: [undefined] and [""] are falsy. *)
Definition truthy (t : option string) : bool :=
  match t with Some s => negb (String.eqb s "") | None => false end.

(** The property name [o.time] converts to in [o.time in this.times]. *)
Definition time_key (t : option string) : string :=
  match t with Some s => s | None => "undefined" end.

(** Steps 1-2 of the resolution rule: [if (!o.time) o.time = curr_state;
    if (constant) o.time = 'start']. *)
Definition resolve_time (constant : bool) (opts : GetOpts) (st : NodeState) : option string :=
  let t := if truthy (opt_time opts) then opt_time opts else curr_state st in
  if constant then Some "start" else t.

Definition cache_lookup (st : NodeState) (t : option string) (key : string) : option Entry :=
  times st !! time_key t ≫= fun m => m !! key.

Definition set_entry (t key : string) (e : Entry) (st : NodeState) : NodeState :=
  mkNodeState (<[t := <[key := e]> (default ∅ (times st !! t))]> (times st))
              (curr_state st) (next_pid st) (node_obj st).

(** [oracle.gotoState(time)] when [time] is truthy. *)
Definition goto_if_named (t : option string) (st : NodeState) : NodeState :=
  if truthy t then mkNodeState (times st) t (next_pid st) (node_obj st) else st.

(** [new Feature(...)]: a fresh percept, measured in the oracle's current
    state. *)
Definition new_percept (key : string) (other : option nat) (st : NodeState) : Percept * NodeState :=
  (mkPercept (next_pid st) key other (curr_state st),
   mkNodeState (times st) (curr_state st) (S (next_pid st)) (node_obj st)).

(** [ObjectNode.prototype.getAttr]; [None] is a thrown error (an unknown
    key makes [ObjectNode.attrs[key].constant] fail). *)
Definition getAttr (key : string) (opts : GetOpts) (st : NodeState) : option (GetResult * NodeState) :=
  match obj_attrs_registry !! key with
  | None => None
  | Some constant =>
      let t := resolve_time constant opts st in
      match cache_lookup st t key with
      | Some e => Some (entry_result e, st)
      | None =>
          if opt_cache_only opts then Some (RFalse, st)
          else
            let st1 := goto_if_named t st in
            let '(p, st2) := new_percept key None st1 in
            Some (RPercept p, if truthy t then set_entry (time_key t) key (EAttr p) st2 else st2)
      end
  end.

(** [cache.filter(function (rel) { return rel.other === o.other.obj })[0]] *)
Definition find_other (other : nat) (ps : list Percept) : option Percept :=
  head (filter (fun p => bool_decide (pother p = Some other)) ps).

(** [ObjectNode.prototype.getRel]; [None] is a thrown error: an unknown key,
    a missing [other] where it is dereferenced, or a cached value that is
    not an array where [filter] or [push] is called on it. *)
Definition getRel (key : string) (opts : GetOpts) (st : NodeState) : option (GetResult * NodeState) :=
  match obj_rels_registry !! key with
  | None => None
  | Some constant =>
      let t := resolve_time constant opts st in
      let miss :=
        if opt_cache_only opts then Some (if opt_get_all opts then RList [] else RFalse, st)
        else
          match opt_other opts with
          | None => None
          | Some other =>
              let st1 := goto_if_named t st in
              let '(p, st2) := new_percept key (Some other) st1 in
              if truthy t then
                match cache_lookup st2 t key with
                | None => Some (RPercept p, set_entry (time_key t) key (ERels [p]) st2)
                | Some (ERels ps) => Some (RPercept p, set_entry (time_key t) key (ERels (ps ++ [p])) st2)
                | Some (EAttr _) => None
                end
              else Some (RPercept p, st2)
          end in
      match cache_lookup st t key with
      | Some e =>
          if opt_get_all opts then Some (entry_result e, st)
          else
            match e with
            | EAttr _ => None
            | ERels ps =>
                match ps, opt_other opts with
                | [], _ => miss
                | _, None => None
                | _, Some other =>
                    match find_other other ps with
                    | Some p => Some (RPercept p, st)
                    | None => miss
                    end
                end
            end
      | None => miss
      end
  end.

(** [ObjectNode.prototype.get] *)
Definition node_get (key : string) (opts : GetOpts) (st : NodeState) : option (GetResult * NodeState) :=
  if bool_decide (is_Some (obj_attrs_registry !! key)) then getAttr key opts st
  else if bool_decide (is_Some (obj_rels_registry !! key)) then getRel key opts st
  else None.

(* ------------------------------------------------------------------ *)
(** ** Group attributes (src/features/close-attr.js, far-attr.js,
       touch-attr.js, count-attr.js) *)

(** JavaScript numbers as the group attributes use them. *)
Inductive Num :=
| NaN
| Infinity
| Fin (q : Q).

(** An edge [{a, b, dist}] of the group's distance graph. *)
Record Edge := mkEdge { ea : nat; eb : nat; edist : Q }.

Section Groups.
(** [objs[i].phys_obj.distance(objs[j].phys_obj) / objs[0].phys_scale]
    for shapes [i] and [j], from the physics engine. *)
Variable distance : nat -> nat -> Q.

(** The edges pushed by the double loop [for i=1..n-1, for j=0..i-1]. *)
Definition group_edges (objs : list nat) : list Edge :=
  flat_map (fun i => map (fun j => mkEdge i j (distance (nth i objs 0) (nth j objs 0))) (seq 0 i))
           (seq 1 (length objs - 1)).

(** [edges.sort(function(a,b) { return a.dist-b.dist })], as a stable
    insertion sort. *)
Fixpoint insert_edge (e : Edge) (l : list Edge) : list Edge :=
  match l with
  | [] => [e]
  | y :: l' => if Qlt_bool (edist e) (edist y) then e :: l else y :: insert_edge e l'
  end.
Definition sort_edges (l : list Edge) : list Edge :=
  fold_left (fun acc e => insert_edge e acc) (rev l) [].

(** [for (j...) if (a in sets[j]) idx_a = j]: the last index whose set
    holds [a]. *)
Fixpoint last_index_of (a : nat) (sets : list (list nat)) (j : nat) (found : option nat) : option nat :=
  match sets with
  | [] => found
  | s :: rest => last_index_of a rest (S j) (if bool_decide (a ∈ s) then Some j else found)
  end.

(** One iteration of the Kruskal loop of [CloseAttribute.getMST]. *)
Definition mst_step (acc : list (list nat) * list Edge) (e : Edge) : list (list nat) * list Edge :=
  let '(sets, mst) := acc in
  let idx_a := last_index_of (ea e) sets 0 None in
  let idx_b := last_index_of (eb e) sets 0 None in
  if bool_decide (idx_a = idx_b) then (sets, mst)
  else
    match idx_a, idx_b with
    | Some ia, Some ib =>
        let merged := app (nth ia sets []) (nth ib sets []) in
        (<[ib := []]> (<[ia := merged]> sets), app mst [e])
    | _, _ => (sets, app mst [e])
    end.

(** [CloseAttribute.getMST(nodes, edges)] *)
Definition getMST (nodes : list nat) (edges : list Edge) : list Edge :=
  snd (fold_left mst_step (sort_edges edges) (map (fun n => [n]) nodes, [])).

(** [mst[mst.length-1].dist]; [None] is the [TypeError] on an empty MST. *)
Definition last_mst_dist (objs : list nat) : option Num :=
  match last (getMST (seq 0 (length objs)) (group_edges objs)) with
  | Some e => Some (Fin (edist e))
  | None => None
  end.

(** [CloseAttribute.prototype.perceive]: [this.val] *)
Definition close_attr_val (objs : list nat) : option Num :=
  if Nat.ltb (length objs) 2 then Some NaN else last_mst_dist objs.

(** [TouchAttribute.prototype.perceive]: [this.val] *)
Definition touch_attr_val (objs : list nat) : option Num :=
  if Nat.ltb (length objs) 2 then Some (Fin 100) else last_mst_dist objs.

(** [FarAttribute.prototype.perceive]: [this.val], the smallest distance. *)
Definition far_attr_val (objs : list nat) : Num :=
  if Nat.ltb (length objs) 2 then NaN
  else fold_left (fun v e => match v with
                             | Fin x => if Qlt_bool (edist e) x then Fin (edist e) else v
                             | _ => Fin (edist e)
                             end) (group_edges objs) Infinity.
End Groups.

(** [CloseRelationship.membership]: [1-1/(1+exp(30*(0.2-dist/100)))]; at
    [Infinity] the exponential vanishes. *)
Definition close_membership (d : Num) : R :=
  match d with
  | Fin q => (1 - sigmoid 30 (2 / 10) (Q2R q / 100))%R
  | _ => 0%R
  end.

(** [FarRelationship.membership]: [1/(1+exp(20*(0.25-dist/100)))]. *)
Definition far_membership (d : Num) : R :=
  match d with
  | Fin q => sigmoid 20 (25 / 100) (Q2R q / 100)
  | _ => 1%R
  end.

(** [TouchRelationship.membership]: [dist <= 0.5 ? 1 : 0] ([NaN <= 0.5]
    and [Infinity <= 0.5] are false). *)
Definition touch_membership (d : Num) : R :=
  match d with
  | Fin q => if Qle_bool q (1 # 2) then 1%R else 0%R
  | _ => 0%R
  end.

Definition isNaN (d : Num) : bool := match d with NaN => true | _ => false end.

(** The [get_activity] methods of the four group attributes; [None]
    propagates an error thrown while perceiving. *)
Definition close_attr_activity (distance : nat -> nat -> Q) (objs : list nat) : option R :=
  match close_attr_val distance objs with
  | Some v => Some (if isNaN v then 0%R else close_membership v)
  | None => None
  end.

Definition touch_attr_activity (distance : nat -> nat -> Q) (objs : list nat) : option R :=
  match touch_attr_val distance objs with
  | Some v => Some (if isNaN v then 0%R else touch_membership v)
  | None => None
  end.

Definition far_attr_activity (distance : nat -> nat -> Q) (objs : list nat) : R :=
  let v := far_attr_val distance objs in
  if isNaN v then 0%R else far_membership v.

(** [CountAttribute]: [val] is [group.objs.length], and [get_activity]
    returns 1. *)
Definition count_attr_val (objs : list nat) : nat := length objs.
Definition count_attr_activity (objs : list nat) : R := 1%R.

(** Two concrete shapes. *)
Definition open_polygon : Shape :=
  SPolygon {| closed := false; pts := [(0, 0); (1, 0); (1, 1)]%Q;
              angles_deg := []; edge_lengths := [] |}.

Definition rect_2255 : Shape :=
  SPolygon {| closed := true; pts := [(0, 0); (5, 0); (5, 2); (0, 2)]%Q;
              angles_deg := [85; 85; 85; 85]%Q; edge_lengths := [5; 2; 5; 2]%Q |}.

(** An object matcher for a rectangle at the start of the scene. *)
Definition shape_rect_matcher : AttrMatcher :=
  {| am_key := "shape"; am_label := "rectangle"; am_active := true; am_time := "start";
     am_type := "object"; am_constant := true |}.

(** What a cache entry stored under the named time [t] and the key [key]
    holds: percepts measured in the state [t], an attribute percept under
    an attribute key and the list of relation percepts under a key that is
    no attribute. *)
Definition entry_ok (t key : string) (e : Entry) : Prop :=
  match e with
  | EAttr p => measured_at p = Some t /\ is_Some (obj_attrs_registry !! key)
  | ERels ps => Forall (fun p => measured_at p = Some t) ps /\ obj_attrs_registry !! key = None
  end.

Definition cache_ok (st : NodeState) : Prop :=
  forall t key e, cache_lookup st (Some t) key = Some e -> entry_ok t key e.

(** [ObjectNode.prototype.perceive(time)], as [SceneNode.perceiveAll]
    calls it: after [oracle.gotoState(time)], every percept is measured in
    the state [time] and the entries replace [this.times[time]]. *)
Definition perceive_entries (time : string) (res : gmap string Entry) (st : NodeState) : NodeState :=
  mkNodeState (<[time := res]> (times st)) (curr_state st) (next_pid st) (node_obj st).

(** The states an object node goes through: a new node, [get] calls, the
    oracle moving to another state on behalf of any caller, and
    [perceive] in the current named state. *)
Inductive node_reach : NodeState -> Prop :=
| reach_init c n o : node_reach (mkNodeState empty c n o)
| reach_get K opts st r st' :
    node_reach st -> node_get K opts st = Some (r, st') -> node_reach st'
| reach_goto st c :
    node_reach st -> node_reach (mkNodeState (times st) c (next_pid st) (node_obj st))
| reach_perceive st time res :
    node_reach st -> curr_state st = Some time ->
    (forall key e, res !! key = Some e -> entry_ok time key e) ->
    node_reach (perceive_entries time res st).

(** A new object node whose oracle is in the 'end' state. *)
Definition node_at_end : NodeState := mkNodeState empty (Some "end") 0 0.

(** [n] calls of [checkScenePair] with the same pair, numbered [n-1]..[0]. *)
Fixpoint repeat_check (n : nat) (pair : list SceneResult) (s : Solution) : Solution :=
  match n with
  | O => s
  | S k => repeat_check k pair (checkScenePair pair k s)
  end.

(** A scene pair whose left scene selects nothing and whose right scene
    selects one object, and the mirror image with two objects on the left. *)
Definition right_pair : list SceneResult := [mkSceneResult "left" 0; mkSceneResult "right" 1].
Definition left_pair : list SceneResult := [mkSceneResult "left" 2; mkSceneResult "right" 0].

(** A scene of two objects, [0] and [1], where every attribute percept is
    an active 'circle' and every relation percept an inactive 'left-of';
    and the negated matcher "not left of a rectangle". *)
Definition neg_env : SelectEnv :=
  {| scene_objs := [0; 1];
     get_attr_view := fun _ _ _ => mkPerceptView 1 "circle";
     get_rel_view := fun _ _ _ _ => mkPerceptView 0 "left-of" |}.

Definition not_left_of_rect : RelMatcher :=
  mkRelMatcher (mkSelector [shape_rect_matcher] [] [] false) "left_of" "left-of" false "start".

(* ------------------------------------------------------------------ *)
(** ** Speed and area attributes (src/features/moves-attr.js,
       is-supported-attr.js, small-attr.js, large-attr.js) *)

(** [MovesAttribute.membership(lin_vel)]: [1/(1+exp(40*(0.1-lin_vel)))]. *)
Definition moves_membership (lin_vel : Q) : R := sigmoid 40 (1 / 10) (Q2R lin_vel).

(** [MovesAttribute.prototype.get_activity] on [this.val], the speed now,
    and [this.val_soon], the speed 0.1 seconds later. *)
Definition moves_activity (val val_soon : Q) : R :=
  Rmax (moves_membership val) (moves_membership val_soon).

(** [IsSupportedAttribute.membership(lin_vel)] *)
Definition is_supported_membership (lin_vel : Q) : R := sigmoid 40 (1 / 10) (Q2R lin_vel).

(** [IsSupportedAttribute.prototype.get_activity]; [val_soon] is the speed
    0.1 seconds later with all other dynamic bodies made static. *)
Definition is_supported_activity (val val_soon : Q) : R :=
  (1 - Rmax (is_supported_membership val) (is_supported_membership val_soon))%R.

(** [SmallAttribute.membership(area)] with [size = 100]:
    [1-1/(1+exp(4*(1.8-area/size/size*100)))]. *)
Definition small_membership (area : Q) : R :=
  (1 - sigmoid 4 (18 / 10) (Q2R area / 100 / 100 * 100))%R.

(** [LargeAttribute.membership(area)]: [1/(1+exp(4*(2-area/size/size*100)))]. *)
Definition large_membership (area : Q) : R := sigmoid 4 2 (Q2R area / 100 / 100 * 100).

(** [get_activity] of the two attributes on [this.val = Math.abs(obj.area())]. *)
Definition small_activity (area : Q) : R := small_membership (Qabs area).
Definition large_activity (area : Q) : R := large_membership (Qabs area).

(** [CloseRelationship.prototype.get_activity] and
    [FarRelationship.prototype.get_activity] on the measured distance
    [this.val]. *)
Definition close_rel_activity (dist : Q) : R := close_membership (Fin dist).
Definition far_rel_activity (dist : Q) : R := far_membership (Fin dist).

(* ------------------------------------------------------------------ *)
(** ** Further selector and solution methods *)

(** [Selector.prototype.blank] *)
Definition blank (s : Selector) : bool :=
  Nat.eqb (length (obj_attrs s)) 0 && Nat.eqb (length (grp_attrs s)) 0 &&
  Nat.eqb (length (rels s)) 0.

(** [Selector.prototype.featureCount] *)
Definition featureCount (s : Selector) : nat :=
  length (obj_attrs s) + length (grp_attrs s) + length (rels s).

(** [Solution.prototype.equals] *)
Definition Solution_equals (s o : Solution) : bool :=
  String.eqb (sol_mode s) (sol_mode o) && sel_equals (sol_sel s) (sol_sel o).

(** [Solution.prototype.compatibleWith] *)
Definition compatibleWith (s o : Solution) : bool :=
  if Nat.ltb (lmatches s) (lchecks s) && Nat.ltb (rmatches o) (rchecks o) then false
  else if Nat.ltb (rmatches s) (rchecks s) && Nat.ltb (lmatches o) (lchecks o) then false
  else true.

(** [Solution.prototype.mergedWith]; [None] is the [null] returned on
    incompatible sides. In
    [var mode = (this.mode === other.mode ? mode : 'exists')] the [mode]
    read in the first branch is the variable being declared, still
    [undefined]: it is passed on as an omitted mode. *)
Definition Solution_mergedWith (s o : Solution) : option Solution :=
  let mode := if String.eqb (sol_mode s) (sol_mode o) then None else Some "exists" in
  let side :=
    if String.eqb (main_side o) (main_side s) then Some (main_side s)
    else if String.eqb (main_side s) "both" then Some (main_side o)
    else if String.eqb (main_side o) "both" then Some (main_side s)
    else None in
  match side with
  | Some sd => Some (new_Solution (mergedWith (sol_sel s) (sol_sel o)) (Some sd) mode)
  | None => None
  end.

(** [Solution.prototype.clone] *)
Definition Solution_clone (s : Solution) : Solution :=
  new_Solution (sel_clone (sol_sel s)) (Some (main_side s)) (Some (sol_mode s)).

(* ------------------------------------------------------------------ *)
(** ** Further object node methods (src/object-node.js) *)

(** [ObjectNode.prototype.getFromCache]: [get] with [cache_only] set. *)
Definition getFromCache (key : string) (opts : GetOpts) (st : NodeState) : option (GetResult * NodeState) :=
  node_get key (mkGetOpts (opt_time opts) (opt_other opts) true (opt_get_all opts)) st.

Section HasRelation.
(** [rel.get_activity()] of a relation percept. *)
Variable rel_activity : Percept -> R.

(** [ObjectNode.prototype.hasRelation(key, time, active, other)], with the
    [other] object given by its shape; [None] is the [TypeError] of
    calling [some] on a cached value that is not an array. *)
Definition hasRelation (key time : string) (active : bool) (other : nat) (st : NodeState) : option bool :=
  match times st !! time with
  | None => Some false
  | Some m =>
      if negb (bool_decide (is_Some (obj_rels_registry !! key))) then Some false
      else
        match m !! key with
        | None => Some false
        | Some (ERels ps) =>
            Some (existsb (fun p => bool_decide (pother p = Some other) &&
                                    Bool.eqb (Rgeb (rel_activity p) activation_threshold) active) ps)
        | Some (EAttr _) => None
        end
  end.
End HasRelation.

(** No relation list in the cache holds two percepts for the same [other]. *)
Definition rels_nodup (st : NodeState) : Prop :=
  forall t key ps, cache_lookup st (Some t) key = Some (ERels ps) -> NoDup (map pother ps).

(** The order [function (a, b) { return a.dist - b.dist }] of the sorted edges. *)
Definition edge_le (x y : Edge) : Prop := (edist x <= edist y)%Q.

(* ------------------------------------------------------------------ *)
(** ** Position attributes, spatial and collision relations (src/unnamed/part_000) *)

(** [LeftAttribute.prototype.membership]: [1-1/(1+exp(20*(0.4-x/size)))], [size = 100]. *)
Definition left_membership (x : Q) : R := (1 - sigmoid 20 (4 / 10) (Q2R x / 100))%R.
(** [LeftAttribute.prototype.get_activity] on [this.val = obj.x]. *)
Definition left_activity (x : Q) : R := left_membership x.
(** [RightAttribute.prototype.membership], the same curve. *)
Definition right_membership (x : Q) : R := (1 - sigmoid 20 (4 / 10) (Q2R x / 100))%R.
(** [RightAttribute.prototype.get_activity] on [this.val = this.size-obj.x]. *)
Definition right_activity (x : Q) : R := right_membership (100 - x).

(** [ground.y+bb.y+bb.height] of [adaptDomain(ground)]. *)
Definition ground_maxy (gy bby bbh : Q) : Q := gy + bby + bbh.
(** [TopAttribute.prototype.adaptDomain]: [maxy = 100] without a ground. *)
Definition top_maxy (ground : option (Q * Q * Q)) : Q :=
  match ground with Some (gy, bby, bbh) => ground_maxy gy bby bbh | None => 100 end.
(** [BottomAttribute.prototype.membership]: [1-1/(1+exp(20*(0.3-x/this.maxy)))]. *)
Definition bottom_membership (maxy x : Q) : R := (1 - sigmoid 20 (3 / 10) (Q2R x / Q2R maxy))%R.
(** [BottomAttribute.prototype.get_activity] on [this.val = this.maxy-obj.y]. *)
Definition bottom_activity (maxy y : Q) : R := bottom_membership maxy (maxy - y).
(** [TopAttribute.prototype.membership]: [1-1/(1+exp(20*(0.45-x/this.maxy)))]. *)
Definition top_membership (maxy x : Q) : R := (1 - sigmoid 20 (45 / 100) (Q2R x / Q2R maxy))%R.
(** [TopAttribute.prototype.get_activity] on [this.val = obj.y]. *)
Definition top_activity (maxy y : Q) : R := top_membership maxy y.

(** The loop of [LeftMostAttribute.prototype.adaptDomain] (and of the
    right-most and top-most ones): [objs[i]] is [None] when it is not an
    [ObjectNode] and [Some (p, s)] with [p] its physics coordinate and [s]
    its scene coordinate; [better best p] is the test [best > x] or
    [best < x]. The result is [best_obj]. *)
Definition adapt_best_obj (better : Q -> Q -> bool) (objs : list (option (Q * Q))) : option (Q * Q) :=
  fold_left (fun best_obj o =>
    match o with
    | None => best_obj
    | Some (p, s) =>
        match best_obj with
        | None => Some (p, s)
        | Some (best, _) => if better best p then Some (p, s) else best_obj
        end
    end) objs None.

(** [this.leftmost_x = best_obj.obj.x]; [None] is the [TypeError] when no
    entry is an [ObjectNode]. *)
Definition leftmost_x (objs : list (option (Q * Q))) : option Q :=
  option_map snd (adapt_best_obj (fun best x => Qlt_bool x best) objs).
Definition rightmost_x (objs : list (option (Q * Q))) : option Q :=
  option_map snd (adapt_best_obj (fun best x => Qlt_bool best x) objs).
Definition topmost_y (objs : list (option (Q * Q))) : option Q :=
  option_map snd (adapt_best_obj (fun best y => Qlt_bool y best) objs).

(** [membership] of the three attributes:
    [CloseRelationship.membership(2.5*Math.abs(this.val-extreme))]. *)
Definition extreme_membership (val extreme : Q) : R := close_membership (Fin ((5 # 2) * Qabs (val - extreme))).

(** [SingleAttribute.membership(dist)]: [1/(1+exp(40*(0.03-dist/100)))]. *)
Definition single_membership (dist : Q) : R := sigmoid 40 (3 / 100) (Q2R dist / 100).
(** [SingleAttribute.prototype.get_activity]. *)
Definition single_activity (val : Q) : R :=
  Rmax 0 (single_membership val - touch_membership (Fin val)).

(** [this.val] of the spatial relations from the memberships [left[1]],
    [right[1]] (and [above[1]], [below[1]]) of the spatial relation
    analyser; [get_activity] returns [this.val], a number, never ['?']. *)
Definition left_of_val (left right : R) : R := Rmax 0 (left - right).
Definition right_of_val (left right : R) : R := Rmax 0 (right - left).
Definition beside_val (l_pos r_pos : R) : R :=
  let left := Rmax 0 (l_pos - r_pos) in
  let right := Rmax 0 (r_pos - l_pos) in
  Rmax left right.
Definition below_val (above below : R) : R := Rmax 0 (below - above).
Definition above_val (above below : R) : R := Rmax 0 (above - below).

(** A collision of the scene: [coll.a] hits [coll.b] with speed [coll.dv]. *)
Record Collision := mkCollision { coll_a : nat; coll_b : nat; coll_dv : Q }.

(** [collisions.length == 0 ? 0 : d3.max(collisions, coll => coll.dv)]. *)
Definition collision_val (cs : list Collision) : Q :=
  match cs with
  | [] => 0
  | c :: cs' => fold_left Qmax (map coll_dv cs') (coll_dv c)
  end.
Definition hits_val (colls : list Collision) (obj other : nat) : Q :=
  collision_val (List.filter (fun c => Nat.eqb (coll_a c) obj && Nat.eqb (coll_b c) other) colls).
Definition gets_hit_val (colls : list Collision) (obj other : nat) : Q :=
  collision_val (List.filter (fun c => Nat.eqb (coll_b c) obj && Nat.eqb (coll_a c) other) colls).
Definition collides_val (colls : list Collision) (obj other : nat) : Q :=
  collision_val (List.filter (fun c => Nat.eqb (coll_a c) obj && Nat.eqb (coll_b c) other ||
                                  Nat.eqb (coll_b c) obj && Nat.eqb (coll_a c) other) colls).

(* ================================================================== *)
(** * Properties *)

(* ------------------------------------------------------------------ *)
(** ** Supports *)

Lemma checkSupports_eq_spec (env : SupportsEnv) (A B : nat) :
  checkSupports env A B = supports_spec env A B.
Proof.
  unfold checkSupports, supports_spec, moves_threshold, touches_threshold,
    ontopof_threshold, close_threshold.
  destruct (Nat.eqb A B); [reflexivity|].
  destruct (Rgtb (moves_act env B) (1 / 2)); [reflexivity|]; simpl.
  destruct (Rgtb (moves_act_without env A B) (1 / 2)); [reflexivity|].
  destruct (Rgtb (ontop_act env B A) (1 / 2)); [reflexivity|].
  destruct (Rgtb (close_act env A B) (1 / 2)); [|reflexivity]; simpl.
  destruct (bool_decide (stability_label env B = Some "stable")); reflexivity.
Qed.

Lemma supports_spec_levels (env : SupportsEnv) (A B : nat) :
  supports_spec env A B = "directly" \/ supports_spec env A B = "indirectly" \/
  supports_spec env A B = "stabilizes" \/ supports_spec env A B = "not".
Proof.
  unfold supports_spec.
  repeat case_match; auto.
Qed.

(** C1: [checkSupports] follows the four-level procedure of the spec:
    ['not'] when A = B or moves(B) > 0.5; else, with A deactivated in the
    0-time sandbox, ['directly']/['indirectly'] by touch(A,B) when B then
    moves; else ['stabilizes'] when on_top_of(B,A) > 0.5, or close(A,B) >
    0.5, B is labelled 'stable' and is not 'stable' without A; else ['not'];
    and [get_activity] maps the levels to 1.0, 0.7, 0.4 and 0.0. *)
Theorem supports_four_level_procedure (env : SupportsEnv) (A B : nat) :
  checkSupports env A B = supports_spec env A B /\
  supports_get_activity (checkSupports env A B)
    = Some (supports_level_activity (supports_spec env A B)).
Proof.
  rewrite checkSupports_eq_spec. split; [reflexivity|].
  destruct (supports_spec_levels env A B) as [H|[H|[H|H]]]; rewrite H; reflexivity.
Qed.

(* ------------------------------------------------------------------ *)
(** ** Stability *)

Lemma is_stable_medium (norm_angle : Q -> Q) (b : StabBody) (dir : string) :
  is_stable norm_angle b dir false = push_passes norm_angle b dir "medium" 1.
Proof.
  unfold is_stable, push_passes, Qlt_bool, max_v, max_dx, max_drot, max_drot_circle.
  destruct (Qle_bool _ (out_speed _)); [reflexivity|]; simpl.
  destruct (Qle_bool _ (out_dist _)); [reflexivity|]; simpl.
  destruct (body_is_circle b); simpl;
    destruct (Qle_bool _ (Qabs _)); reflexivity.
Qed.

Lemma is_stable_small (norm_angle : Q -> Q) (b : StabBody) (dir : string) :
  is_stable norm_angle b dir true = push_passes norm_angle b dir "small" (2 # 3).
Proof.
  unfold is_stable, push_passes, Qlt_bool, max_v, max_dx, max_drot, max_drot_circle.
  destruct (Qle_bool _ (out_speed _)); [reflexivity|]; simpl.
  destruct (Qle_bool _ (out_dist _)); [reflexivity|]; simpl.
  destruct (body_is_circle b); simpl;
    destruct (Qle_bool _ (Qabs _)); reflexivity.
Qed.

(** C2: [checkStability] yields 'stable' for a static body, 'moving' above
    speed 0.25, 'stable' when both medium pushes pass (speed < 0.4, distance
    < 0.2, |rotation| < 0.157, or < 1.047 for circles), 'slightly unstable'
    when both small pushes pass the thresholds scaled by 2/3, else
    'unstable'; [get_label] reports 'stable' for 'stable' and 'slightly
    unstable' and 'unstable' for 'moving' and 'unstable'. *)
Theorem stability_procedure_and_label (norm_angle : Q -> Q) (b : StabBody) :
  checkStability norm_angle b = stability_spec norm_angle b /\
  stability_get_label (checkStability norm_angle b) =
    Some (if String.eqb (stability_spec norm_angle b) "stable"
             || String.eqb (stability_spec norm_angle b) "slightly unstable"
          then "stable" else "unstable").
Proof.
  assert (E : checkStability norm_angle b = stability_spec norm_angle b).
  { unfold checkStability, stability_spec, max_initial_v.
    rewrite !is_stable_medium, !is_stable_small. reflexivity. }
  split; [exact E|]. rewrite E.
  assert (V : forall v, v = "stable" \/ v = "moving" \/ v = "slightly unstable" \/ v = "unstable" ->
             stability_get_label v = Some (if String.eqb v "stable" || String.eqb v "slightly unstable"
                                           then "stable" else "unstable")).
  { intros v [H|[H|[H|H]]]; rewrite H; reflexivity. }
  apply V. unfold stability_spec. repeat case_match; auto.
Qed.

(* ------------------------------------------------------------------ *)
(** ** Shapes *)

(** C6 (code defect): [ShapeAttribute.get_activity] tests [val == '?'], a
    value [determineShape] never returns; an unclassified shape has value
    'unknown' and activity 1, not 0. *)
Theorem shape_unknown_activity_one :
  determineShape open_polygon = "unknown" /\ shape_get_activity open_polygon = 1%R.
Proof. split; reflexivity. Qed.

(** C7, counterexample: on the 85-degree rectangle with edges [2,2,5,5]
    the square attribute's activity is 0.3, not 0. *)
Lemma rect_2255_square_not_zero :
  ~ (shape_get_label rect_2255 = "rectangle" /\ rect_get_activity rect_2255 = 1%R /\
     square_get_activity rect_2255 = 0%R).
Proof.
  intros [_ [_ H]]. unfold square_get_activity in H. vm_compute in H. lra.
Qed.

(** C7, amended: a closed polygon with four vertices, all angles 85 degrees
    and sorted edge lengths [2,2,5,5] has shape label 'rectangle', rect
    activity 1 and square activity 0.3. *)
Theorem rectangle_85_2255 (p : Polygon) :
  closed p = true -> length (pts p) = 4 -> angles_deg p = [85; 85; 85; 85]%Q ->
  get_edge_lengths_sorted p = [2; 2; 5; 5]%Q ->
  shape_get_label (SPolygon p) = "rectangle" /\ rect_get_activity (SPolygon p) = 1%R /\
  square_get_activity (SPolygon p) = (3 / 10)%R.
Proof.
  intros Hc Hl Ha He.
  assert (Hr : isRectangle p = true).
  { unfold isRectangle, angle. rewrite Hl, Ha. reflexivity. }
  assert (Hq : edges_ratio_lt_07 p = true).
  { unfold edges_ratio_lt_07. rewrite He. reflexivity. }
  unfold shape_get_label, shape_val, rect_get_activity, square_get_activity,
    determineShape, rectness, squareness.
  rewrite Hc, Hl, Hr, Hq. simpl. auto.
Qed.

Lemma rectangle_85_2255_witness :
  shape_get_label rect_2255 = "rectangle" /\ rect_get_activity rect_2255 = 1%R /\
  square_get_activity rect_2255 = (3 / 10)%R.
Proof.
  apply (rectangle_85_2255 {| closed := true; pts := [(0, 0); (5, 0); (5, 2); (0, 2)]%Q;
              angles_deg := [85; 85; 85; 85]%Q; edge_lengths := [5; 2; 5; 2]%Q |});
    reflexivity.
Defined.

(* ------------------------------------------------------------------ *)
(** ** Group attributes *)

(** C8, counterexample: the count attribute of the empty group has
    activity 1, not 0. *)
Lemma count_empty_group_activity_one : count_attr_activity [] <> 0%R.
Proof. unfold count_attr_activity. lra. Qed.

(** C8, amended: on a group with fewer than 2 objects the close, touching
    and far attributes have activity 0, while count has activity 1. *)
Theorem small_group_activities (distance : nat -> nat -> Q) (objs : list nat) :
  length objs < 2 ->
  close_attr_activity distance objs = Some 0%R /\
  touch_attr_activity distance objs = Some 0%R /\
  far_attr_activity distance objs = 0%R /\
  count_attr_activity objs = 1%R.
Proof.
  intros Hl. apply Nat.ltb_lt in Hl.
  unfold close_attr_activity, touch_attr_activity, far_attr_activity,
    close_attr_val, touch_attr_val, far_attr_val, count_attr_activity.
  rewrite Hl. simpl. repeat split.
Qed.

Lemma small_group_activities_witness :
  length [4] < 2 /\
  close_attr_activity (fun _ _ => 0%Q) [4] = Some 0%R /\
  touch_attr_activity (fun _ _ => 0%Q) [4] = Some 0%R /\
  far_attr_activity (fun _ _ => 0%Q) [4] = 0%R /\
  count_attr_activity [4] = 1%R.
Proof.
  split; [simpl; lia|]. apply small_group_activities. simpl; lia.
Defined.

(* ------------------------------------------------------------------ *)
(** ** Selector equality and merging *)

Lemma all_in_refl {A} (eq : A -> A -> bool) (l : list A) :
  (forall x, In x l -> eq x x = true) -> all_in eq l l = true.
Proof.
  intros H. unfold all_in. apply List.forallb_forall. intros x Hx.
  apply List.existsb_exists. exists x. auto.
Qed.

Lemma all_in_trans {A} (eq : A -> A -> bool) (l1 l2 l3 : list A) :
  (forall x y z, In x l1 -> eq x y = true -> eq y z = true -> eq x z = true) ->
  all_in eq l1 l2 = true -> all_in eq l2 l3 = true -> all_in eq l1 l3 = true.
Proof.
  unfold all_in. rewrite !List.forallb_forall. intros T H12 H23 x Hx.
  specialize (H12 x Hx). apply List.existsb_exists in H12 as [y [Hy Hxy]].
  specialize (H23 y Hy). apply List.existsb_exists in H23 as [z [Hz Hyz]].
  apply List.existsb_exists. exists z. split; [exact Hz|]. eapply T; eauto.
Qed.

Lemma attr_equals_refl (a : AttrMatcher) : attr_equals a a = true.
Proof.
  unfold attr_equals. rewrite !String.eqb_refl, Bool.eqb_reflx. reflexivity.
Qed.

Lemma attr_equals_trans (a b c : AttrMatcher) :
  attr_equals a b = true -> attr_equals b c = true -> attr_equals a c = true.
Proof.
  unfold attr_equals. rewrite !andb_true_iff, !String.eqb_eq, !Bool.eqb_true_iff.
  intros [[[? ?] ?] ?] [[[? ?] ?] ?]. repeat split; congruence.
Qed.

Lemma sel_equals_refl (s : Selector) : sel_equals s s = true.
Proof.
  apply (selector_ind' (fun s => sel_equals s s = true) (fun r => rel_equals r r = true)).
  - intros oa ga rs u Hrs. simpl. rewrite !Nat.eqb_refl.
    rewrite !all_in_refl by (intros; apply attr_equals_refl). simpl.
    apply (all_in_refl rel_equals). intros x Hx.
    rewrite List.Forall_forall in Hrs. auto.
  - intros os k l a t H. simpl. rewrite !String.eqb_refl, Bool.eqb_reflx, H. reflexivity.
Qed.

Lemma sel_equals_trans (s t u : Selector) :
  sel_equals s t = true -> sel_equals t u = true -> sel_equals s u = true.
Proof.
  revert t u.
  apply (selector_ind'
    (fun s => forall t u, sel_equals s t = true -> sel_equals t u = true -> sel_equals s u = true)
    (fun r => forall r' r'', rel_equals r r' = true -> rel_equals r' r'' = true ->
                             rel_equals r r'' = true)).
  - intros oa ga rs us Hrs [oa2 ga2 rs2 u2] [oa3 ga3 rs3 u3]. simpl.
    rewrite !andb_true_iff, !Nat.eqb_eq.
    intros [[[[[L1 L2] L3] G12] O12] R12] [[[[[L4 L5] L6] G23] O23] R23].
    repeat split; try congruence.
    + eapply all_in_trans; eauto. intros; eapply attr_equals_trans; eauto.
    + eapply all_in_trans; eauto. intros; eapply attr_equals_trans; eauto.
    + apply (all_in_trans rel_equals rs rs2 rs3); auto.
      intros x y z Hx. rewrite List.Forall_forall in Hrs. apply Hrs. exact Hx.
  - intros os k l a t IH [os2 k2 l2 a2 t2] [os3 k3 l3 a3 t3]. simpl.
    rewrite !andb_true_iff, !String.eqb_eq, !Bool.eqb_true_iff.
    intros [[[[? ?] ?] ?] E12] [[[[? ?] ?] ?] E23]. repeat split; try congruence.
    eapply IH; eauto.
Qed.

Lemma attr_same_refl (a : AttrMatcher) : attr_same a a = true.
Proof. unfold attr_same. rewrite !String.eqb_refl. reflexivity. Qed.

Lemma rel_same_refl (r : RelMatcher) : rel_same r r = true.
Proof. unfold rel_same. rewrite !String.eqb_refl, sel_equals_refl. reflexivity. Qed.

Section ReplaceOrPush.
Context {A : Type} (same : A -> A -> bool).

Lemma replace_or_push_in (x z : A) (l : list A) :
  In z (replace_or_push (fun y => same y x) x l) -> z = x \/ In z l.
Proof.
  induction l as [|y l IH]; simpl.
  - intros [H|[]]. auto.
  - destruct (same y x); simpl.
    + intros [H|H]; auto.
    + intros [H|H]; auto. destruct (IH H); auto.
Qed.

Lemma replace_or_push_fresh (x : A) (l : list A) :
  Forall (fun y => same y x = false) l -> replace_or_push (fun y => same y x) x l = app l [x].
Proof.
  induction l as [|y l IH]; simpl; [reflexivity|].
  intros H. inversion H as [|? ? Hy Hl]; subst. rewrite Hy, IH by exact Hl. reflexivity.
Qed.

Lemma pairwise_fresh_app (l1 l2 : list A) :
  pairwise_fresh same (app l1 l2) ->
  pairwise_fresh same l2 /\ forall y z, In y l1 -> In z l2 -> same y z = false.
Proof.
  induction l1 as [|x l1 IH]; simpl.
  - intros H. split; [exact H|]. intros ? ? [].
  - intros [Hx Hrest]. destruct (IH Hrest) as [H2 H12]. split; [exact H2|].
    intros y z [<-|Hy] Hz.
    + rewrite List.Forall_forall in Hx. apply Hx. apply in_or_app. auto.
    + auto.
Qed.

Lemma fold_add_fresh (l acc : list A) :
  pairwise_fresh same (app acc l) -> fold_left (fun acc x => replace_or_push (fun y => same y x) x acc) l acc = app acc l.
Proof.
  revert acc. induction l as [|x l IH]; intros acc H; simpl.
  - rewrite app_nil_r. reflexivity.
  - rewrite replace_or_push_fresh.
    + rewrite IH; [rewrite <- app_assoc; reflexivity|]. rewrite <- app_assoc. exact H.
    + apply List.Forall_forall. intros y Hy.
      destruct (pairwise_fresh_app acc (x :: l) H) as [_ H12]. apply H12; simpl; auto.
Qed.

Lemma readd_one (l : list A) (x : A) :
  pairwise_fresh same l -> In x l -> same x x = true ->
  replace_or_push (fun y => same y x) x l = l.
Proof.
  induction l as [|y l IH]; simpl; [intros _ []|].
  intros [Hy Hl] Hin Hxx. destruct (same y x) eqn:E.
  - destruct Hin as [<-|Hin]; [reflexivity|].
    rewrite List.Forall_forall in Hy. rewrite (Hy x Hin) in E. discriminate.
  - destruct Hin as [<-|Hin]; [congruence|]. rewrite IH; auto.
Qed.

Lemma fold_readd (l l' : list A) :
  pairwise_fresh same l -> (forall x, In x l' -> In x l /\ same x x = true) ->
  fold_left (fun acc x => replace_or_push (fun y => same y x) x acc) l' l = l.
Proof.
  induction l' as [|x l' IH]; simpl; intros Hpw H; [reflexivity|].
  destruct (H x (or_introl eq_refl)) as [Hin Hxx].
  rewrite readd_one by assumption. apply IH; auto.
Qed.

Lemma pairwise_fresh_replace (x : A) (l : list A) :
  pairwise_fresh same l ->
  (forall y z, same y x = true -> same y z = false -> same x z = false) ->
  pairwise_fresh same (replace_or_push (fun y => same y x) x l).
Proof.
  intros Hpw Hc. induction l as [|y l IH]; simpl.
  - split; [constructor|exact I].
  - destruct Hpw as [Hy Hl]. destruct (same y x) eqn:E; simpl.
    + split; [|exact Hl]. rewrite List.Forall_forall in *. intros z Hz. eapply Hc; eauto.
    + split; [|apply IH; exact Hl]. apply List.Forall_forall. intros z Hz.
      destruct (replace_or_push_in x z l Hz) as [->|Hz']; [exact E|].
      rewrite List.Forall_forall in Hy. auto.
Qed.

Lemma Forall_replace (P : A -> Prop) (x : A) (l : list A) :
  P x -> Forall P l -> Forall P (replace_or_push (fun y => same y x) x l).
Proof.
  intros Hx Hl. apply List.Forall_forall. intros z Hz.
  destruct (replace_or_push_in x z l Hz) as [->|Hz']; [exact Hx|].
  rewrite List.Forall_forall in Hl. auto.
Qed.
End ReplaceOrPush.

Lemma attr_same_compat (y m z : AttrMatcher) :
  attr_same y m = true -> attr_same y z = false -> attr_same m z = false.
Proof.
  unfold attr_same. rewrite !String.eqb_refl, !andb_true_r.
  intros H1 H2. destruct (String.eqb (am_key m) (am_key z) && String.eqb (am_time m) (am_time z))
    eqn:E; [|reflexivity].
  rewrite andb_true_iff, !String.eqb_eq in H1, E. destruct H1 as [Hk Ht], E as [Hk' Ht'].
  assert (K : String.eqb (am_key y) (am_key z) = true) by (apply String.eqb_eq; congruence).
  assert (T : String.eqb (am_time y) (am_time z) = true) by (apply String.eqb_eq; congruence).
  rewrite K, T in H2. discriminate.
Qed.

Lemma rel_same_compat (y m z : RelMatcher) :
  rel_same y m = true -> rel_same y z = false -> rel_same m z = false.
Proof.
  unfold rel_same. intros H1 H2.
  destruct (String.eqb (rm_key m) (rm_key z) && String.eqb (rm_time m) (rm_time z)
            && sel_equals (other_sel m) (other_sel z)) eqn:E; [|reflexivity].
  rewrite !andb_true_iff, !String.eqb_eq in H1, E.
  destruct H1 as [[Hk Ht] Hs], E as [[Hk' Ht'] Hs'].
  assert (K : String.eqb (rm_key y) (rm_key z) = true) by (apply String.eqb_eq; congruence).
  assert (T : String.eqb (rm_time y) (rm_time z) = true) by (apply String.eqb_eq; congruence).
  rewrite K, T, (sel_equals_trans _ _ _ Hs Hs') in H2. discriminate.
Qed.

Lemma add_attr_wf (m : AttrMatcher) (s : Selector) : sel_wf s -> sel_wf (add_attr m s).
Proof.
  destruct s as [oa ga rs u]. unfold sel_wf, add_attr. cbn [obj_attrs grp_attrs rels].
  intros [Po [To [Pg [Tg Pr]]]].
  destruct (String.eqb (am_type m) "group") eqn:E; cbn [obj_attrs grp_attrs rels];
    repeat split; auto.
  - apply pairwise_fresh_replace; [exact Pg|]. intros y z; apply attr_same_compat.
  - apply (Forall_replace attr_same (fun a => String.eqb (am_type a) "group" = true)); auto.
  - apply pairwise_fresh_replace; [exact Po|]. intros y z; apply attr_same_compat.
  - apply (Forall_replace attr_same (fun a => String.eqb (am_type a) "group" = false)); auto.
Qed.

Lemma add_rel_wf (m : RelMatcher) (s : Selector) : sel_wf s -> sel_wf (add_rel m s).
Proof.
  destruct s as [oa ga rs u]. unfold sel_wf, add_rel. cbn [obj_attrs grp_attrs rels].
  intros [Po [To [Pg [Tg Pr]]]]. repeat split; auto.
  apply pairwise_fresh_replace; [exact Pr|]. intros y z; apply rel_same_compat.
Qed.

Lemma add_attrs_wf (l : list AttrMatcher) (s : Selector) : sel_wf s -> sel_wf (add_attrs l s).
Proof.
  unfold add_attrs. revert s. induction l as [|a l IH]; intros s H; simpl; auto.
  apply IH, add_attr_wf, H.
Qed.

Lemma add_rels_wf (l : list RelMatcher) (s : Selector) : sel_wf s -> sel_wf (add_rels l s).
Proof.
  unfold add_rels. revert s. induction l as [|r l IH]; intros s H; simpl; auto.
  apply IH, add_rel_wf, H.
Qed.

Lemma new_Selector_wf (u : bool) : sel_wf (new_Selector u).
Proof. repeat split; constructor. Qed.

Lemma built_wf (s : Selector) : built s -> sel_wf s.
Proof.
  induction 1.
  - apply new_Selector_wf.
  - apply add_attr_wf; assumption.
  - apply add_rel_wf; assumption.
  - unfold mergedWith.
    repeat first [apply add_rels_wf | apply add_attrs_wf]. apply new_Selector_wf.
  - unfold sel_clone.
    repeat first [apply add_rels_wf | apply add_attrs_wf]. apply new_Selector_wf.
Qed.

Lemma add_attrs_obj (l : list AttrMatcher) (oa ga : list AttrMatcher) rs u :
  Forall (fun a => String.eqb (am_type a) "group" = false) l ->
  add_attrs l (mkSelector oa ga rs u) =
  mkSelector (fold_left (fun acc x => replace_or_push (fun y => attr_same y x) x acc) l oa) ga rs u.
Proof.
  unfold add_attrs. revert oa. induction l as [|a l IH]; intros oa H; simpl; [reflexivity|].
  inversion H as [|? ? Ha Hl]; subst. rewrite Ha. apply IH, Hl.
Qed.

Lemma add_attrs_grp (l : list AttrMatcher) (oa ga : list AttrMatcher) rs u :
  Forall (fun a => String.eqb (am_type a) "group" = true) l ->
  add_attrs l (mkSelector oa ga rs u) =
  mkSelector oa (fold_left (fun acc x => replace_or_push (fun y => attr_same y x) x acc) l ga) rs u.
Proof.
  unfold add_attrs. revert ga. induction l as [|a l IH]; intros ga H; simpl; [reflexivity|].
  inversion H as [|? ? Ha Hl]; subst. rewrite Ha. apply IH, Hl.
Qed.

Lemma add_rels_eq (l : list RelMatcher) (oa ga : list AttrMatcher) rs u :
  add_rels l (mkSelector oa ga rs u) =
  mkSelector oa ga (fold_left (fun acc x => replace_or_push (fun y => rel_same y x) x acc) l rs) u.
Proof.
  unfold add_rels. revert rs. induction l as [|r l IH]; intros rs; simpl; [reflexivity|].
  apply IH.
Qed.

Lemma mergedWith_self_wf (s : Selector) :
  sel_wf s -> mergedWith s s = mkSelector (obj_attrs s) (grp_attrs s) (rels s) false.
Proof.
  destruct s as [oa ga rs u]. unfold sel_wf. cbn [obj_attrs grp_attrs rels].
  intros [Po [To [Pg [Tg Pr]]]]. unfold mergedWith, new_Selector. cbn [obj_attrs grp_attrs rels].
  rewrite !add_attrs_obj by assumption. rewrite !add_attrs_grp by assumption.
  rewrite !add_rels_eq.
  rewrite (fold_add_fresh attr_same oa []) by exact Po.
  rewrite (fold_add_fresh attr_same ga []) by exact Pg.
  rewrite (fold_add_fresh rel_same rs []) by exact Pr. cbn [app].
  rewrite (fold_readd attr_same oa oa) by (auto; intros; split; auto using attr_same_refl).
  rewrite (fold_readd attr_same ga ga) by (auto; intros; split; auto using attr_same_refl).
  rewrite (fold_readd rel_same rs rs) by (auto; intros; split; auto using rel_same_refl).
  reflexivity.
Qed.

(** C9: merging a selector built through the API with itself gives a
    selector that [equals] reports equal to the original. *)
Theorem mergedWith_self_equals (s : Selector) :
  built s -> sel_equals (mergedWith s s) s = true.
Proof.
  intros Hb. rewrite (mergedWith_self_wf s (built_wf s Hb)).
  destruct s as [oa ga rs u]. cbn [obj_attrs grp_attrs rels].
  transitivity (sel_equals (mkSelector oa ga rs u) (mkSelector oa ga rs u));
    [reflexivity | apply sel_equals_refl].
Qed.

Lemma mergedWith_self_equals_witness :
  built (add_attr shape_rect_matcher (new_Selector false)) /\
  sel_equals (mergedWith (add_attr shape_rect_matcher (new_Selector false))
                         (add_attr shape_rect_matcher (new_Selector false)))
             (add_attr shape_rect_matcher (new_Selector false)) = true.
Proof.
  assert (Hb : built (add_attr shape_rect_matcher (new_Selector false)))
    by (constructor; constructor).
  split; [exact Hb | apply (mergedWith_self_equals _ Hb)].
Defined.

(* ------------------------------------------------------------------ *)
(** ** The perception cache *)

Lemma cache_lookup_mk (st : NodeState) c n o t k :
  cache_lookup (mkNodeState (times st) c n o) t k = cache_lookup st t k.
Proof. reflexivity. Qed.

Lemma cache_set (t key : string) (e : Entry) (st : NodeState) :
  cache_lookup (set_entry t key e st) (Some t) key = Some e.
Proof.
  unfold cache_lookup, set_entry. cbn [times time_key].
  rewrite lookup_insert_eq. cbn [mbind option_bind]. apply lookup_insert_eq.
Qed.

Lemma cache_set_other (t t' key : string) (e : Entry) (st : NodeState) :
  t <> t' -> times (set_entry t key e st) !! t' = times st !! t'.
Proof. intros H. unfold set_entry. cbn [times]. apply lookup_insert_ne. exact H. Qed.

Lemma find_other_Some (o : nat) (ps : list Percept) (p : Percept) :
  find_other o ps = Some p -> pother p = Some o.
Proof.
  unfold find_other. destruct (filter _ ps) as [|q qs] eqn:E; cbn [head]; [discriminate|].
  intros [= <-]. assert (Hq : q ∈ filter (fun p => bool_decide (pother p = Some o)) ps)
    by (rewrite E; left).
  apply list_elem_of_filter in Hq as [Hq _]. apply bool_decide_unpack in Hq. exact Hq.
Qed.

Lemma find_other_push (o : nat) (ps : list Percept) (p : Percept) :
  find_other o ps = None -> pother p = Some o -> find_other o (app ps [p]) = Some p.
Proof.
  unfold find_other. intros H Hp. rewrite filter_app.
  destruct (filter _ ps) eqn:E; cbn [head] in H; [|discriminate].
  cbn [app]. rewrite filter_cons_True; [reflexivity|]. apply bool_decide_pack. exact Hp.
Qed.

Lemma find_other_single (o : nat) (p : Percept) :
  pother p = Some o -> find_other o [p] = Some p.
Proof. apply (find_other_push o []). reflexivity. Qed.

Lemma cache_lookup_set (t t' key key' : string) (e : Entry) (st : NodeState) :
  cache_lookup (set_entry t key e st) (Some t') key' =
  if bool_decide (t = t' /\ key = key') then Some e else cache_lookup st (Some t') key'.
Proof.
  unfold cache_lookup, set_entry. cbn [times time_key].
  destruct (decide (t = t')) as [<-|Ht].
  - rewrite lookup_insert_eq. cbn [mbind option_bind].
    destruct (decide (key = key')) as [<-|Hk].
    + rewrite bool_decide_true by auto. apply lookup_insert_eq.
    + rewrite bool_decide_false by naive_solver. rewrite lookup_insert_ne by exact Hk.
      destruct (times st !! t); reflexivity.
  - rewrite bool_decide_false by naive_solver. rewrite lookup_insert_ne by exact Ht.
    reflexivity.
Qed.

Lemma set_entry_ok (t key : string) (e : Entry) (st : NodeState) :
  cache_ok st -> entry_ok t key e -> cache_ok (set_entry t key e st).
Proof.
  intros Hok He t' key' e'. rewrite cache_lookup_set.
  case_bool_decide as D.
  - destruct D as [<- <-]. intros [= <-]. exact He.
  - apply Hok.
Qed.

Lemma cache_ok_mk (st : NodeState) c n o : cache_ok st -> cache_ok (mkNodeState (times st) c n o).
Proof. intros H t key e. rewrite cache_lookup_mk. apply H. Qed.

Lemma times_goto (t : option string) (st : NodeState) : times (goto_if_named t st) = times st.
Proof. unfold goto_if_named. destruct (truthy t); reflexivity. Qed.

Lemma cache_ok_goto (t : option string) (st : NodeState) :
  cache_ok st -> cache_ok (goto_if_named t st).
Proof. unfold goto_if_named. destruct (truthy t); [apply cache_ok_mk|exact (fun H => H)]. Qed.

Lemma curr_goto (t : option string) (st : NodeState) :
  truthy t = true -> curr_state (goto_if_named t st) = t.
Proof. unfold goto_if_named. intros ->. reflexivity. Qed.

Lemma truthy_Some (t : option string) : truthy t = true -> t = Some (time_key t).
Proof. destruct t; [reflexivity|discriminate]. Qed.

Lemma cache_ok_at (st : NodeState) (t : option string) (key : string) (e : Entry) :
  cache_ok st -> truthy t = true -> cache_lookup st t key = Some e -> entry_ok (time_key t) key e.
Proof. intros Hok Tt. rewrite (truthy_Some t Tt) at 1. apply Hok. Qed.

Lemma getAttr_ok (K : string) (o : GetOpts) (st : NodeState) r st' :
  cache_ok st -> getAttr K o st = Some (r, st') -> cache_ok st'.
Proof.
  intros Hok H. unfold getAttr in H.
  destruct (obj_attrs_registry !! K) as [c|] eqn:HK; [|discriminate].
  cbv zeta in H. repeat case_match; simplify_eq; auto.
  - apply set_entry_ok.
    + unfold new_percept in *. simplify_eq. apply cache_ok_mk, cache_ok_goto, Hok.
    + unfold new_percept in *. simplify_eq. cbn. split; [|eauto].
      rewrite curr_goto by assumption. apply truthy_Some. assumption.
  - unfold new_percept in *. simplify_eq. apply cache_ok_mk, cache_ok_goto, Hok.
Qed.

Lemma getRel_ok (K : string) (o : GetOpts) (st : NodeState) r st' :
  obj_attrs_registry !! K = None ->
  cache_ok st -> getRel K o st = Some (r, st') -> cache_ok st'.
Proof.
  intros HA Hok H. unfold getRel in H.
  destruct (obj_rels_registry !! K) as [c|] eqn:HK; [|discriminate].
  cbv zeta in H. repeat case_match; simplify_eq; auto;
    unfold new_percept in *; simplify_eq; try (apply cache_ok_mk, cache_ok_goto, Hok).
  all: apply set_entry_ok; [apply cache_ok_mk, cache_ok_goto, Hok|].
  all: match goal with Tt : truthy ?t = true |- _ =>
         cbn [entry_ok]; rewrite (curr_goto t st Tt); split; [|exact HA];
         pose proof (truthy_Some t Tt) as Ts end.
  all: try (constructor; [exact Ts|constructor]).
  all: apply Forall_app; split; [|constructor; [exact Ts|constructor]].
  all: match goal with
       | Tt : truthy ?t = true, E : cache_lookup (mkNodeState _ _ _ _) ?t _ = Some (ERels _) |- _ =>
           exact (proj1 (cache_ok_at _ _ _ _ (cache_ok_mk _ _ _ _ (cache_ok_goto t st Hok)) Tt E))
       end.
Qed.

Lemma node_get_attr (K : string) (o : GetOpts) (st : NodeState) c :
  obj_attrs_registry !! K = Some c -> node_get K o st = getAttr K o st.
Proof. intros H. unfold node_get. rewrite H, bool_decide_true by eauto. reflexivity. Qed.

Lemma node_get_rel (K : string) (o : GetOpts) (st : NodeState) c :
  obj_attrs_registry !! K = None -> obj_rels_registry !! K = Some c ->
  node_get K o st = getRel K o st.
Proof.
  intros HA HR. unfold node_get. rewrite HA, HR.
  rewrite bool_decide_false by (intros [? ?]; discriminate).
  rewrite bool_decide_true by eauto. reflexivity.
Qed.

Lemma getAttr_named_miss (K T : string) (st : NodeState) :
  obj_attrs_registry !! K = Some false -> truthy (Some T) = true ->
  cache_lookup st (Some T) K = None ->
  getAttr K (mkGetOpts (Some T) None false false) st =
    Some (RPercept (mkPercept (next_pid st) K None (Some T)),
          set_entry T K (EAttr (mkPercept (next_pid st) K None (Some T)))
            (mkNodeState (times st) (Some T) (S (next_pid st)) (node_obj st))).
Proof.
  intros HK Tt E. unfold getAttr. rewrite HK. unfold resolve_time, goto_if_named, new_percept.
  cbn [opt_time opt_cache_only]. rewrite Tt. cbv zeta iota. rewrite E, Tt. reflexivity.
Qed.

Lemma node_get_ok (K : string) (o : GetOpts) (st : NodeState) r st' :
  cache_ok st -> node_get K o st = Some (r, st') -> cache_ok st'.
Proof.
  intros Hok. destruct (obj_attrs_registry !! K) as [c|] eqn:HA.
  - rewrite (node_get_attr K o st c HA). apply getAttr_ok, Hok.
  - destruct (obj_rels_registry !! K) as [c|] eqn:HR.
    + rewrite (node_get_rel K o st c HA HR). apply getRel_ok; assumption.
    + unfold node_get. rewrite HA, HR, !bool_decide_false by (intros [? ?]; discriminate).
      discriminate.
Qed.

Lemma perceive_ok (time : string) (res : gmap string Entry) (st : NodeState) :
  cache_ok st -> (forall key e, res !! key = Some e -> entry_ok time key e) ->
  cache_ok (perceive_entries time res st).
Proof.
  intros Hok Hres t key e. unfold cache_lookup, perceive_entries. cbn [times time_key].
  destruct (decide (time = t)) as [<-|Ht].
  - rewrite lookup_insert_eq. apply Hres.
  - rewrite lookup_insert_ne by exact Ht. apply Hok.
Qed.

Lemma node_reach_ok (st : NodeState) : node_reach st -> cache_ok st.
Proof.
  induction 1 as [c n o|K opts st r st' _ IH Hget|st c _ IH|st time res _ IH _ Hres].
  - intros t key e. unfold cache_lookup. cbn [times]. rewrite lookup_empty. discriminate.
  - eapply node_get_ok; eassumption.
  - apply cache_ok_mk, IH.
  - apply perceive_ok; assumption.
Qed.

(** C10: [MovesAttribute.prototype.constant] is true, but [getAttr] tests
    [ObjectNode.attrs['moves'].constant], which is [undefined]: on every
    state an object node reaches and for every named time [T],
    [get('moves', {time: T})] answers a percept measured in the state [T]
    and cached under [T], not under 'start'. So at [T = 'end'] the answer
    is an end-state measurement. *)
Theorem moves_measured_at_time (st : NodeState) (T : string) :
  node_reach st -> T <> "" ->
  exists p st1,
    node_get "moves" (mkGetOpts (Some T) None false false) st = Some (RPercept p, st1) /\
    measured_at p = Some T /\
    cache_lookup st1 (Some T) "moves" = Some (EAttr p).
Proof.
  intros Hr HT. pose proof (node_reach_ok st Hr) as Hok.
  assert (HK : obj_attrs_registry !! "moves" = Some false) by reflexivity.
  assert (Tt : truthy (Some T) = true)
    by (cbn [truthy]; apply negb_true_iff, String.eqb_neq; exact HT).
  rewrite (node_get_attr _ _ _ _ HK).
  unfold getAttr. rewrite HK. unfold resolve_time. cbn [opt_time]. rewrite Tt. cbv zeta iota.
  destruct (cache_lookup st (Some T) "moves") as [[p|ps]|] eqn:E.
  - exists p, st. destruct (Hok _ _ _ E) as [Hm _]. auto.
  - destruct (Hok _ _ _ E) as [_ HA]. rewrite HK in HA. discriminate.
  - cbn [opt_cache_only]. unfold new_percept. rewrite Tt. cbn [time_key].
    eexists _, _. split; [reflexivity|]. split.
    + cbn [measured_at]. apply curr_goto, Tt.
    + apply cache_set.
Qed.

Lemma moves_measured_at_time_witness :
  node_reach node_at_end /\ "end" <> "" /\
  exists p st1,
    node_get "moves" (mkGetOpts (Some "end") None false false) node_at_end = Some (RPercept p, st1) /\
    measured_at p = Some "end" /\
    cache_lookup st1 (Some "end") "moves" = Some (EAttr p).
Proof.
  assert (Hr : node_reach node_at_end) by constructor.
  assert (HT : "end" <> "") by discriminate.
  split; [exact Hr|]. split; [exact HT|]. apply (moves_measured_at_time node_at_end "end" Hr HT).
Defined.

(** C5: [getAttr] redirects to 'start' only when
    [ObjectNode.attrs[key].constant] is truthy, which it is for no key
    (the flag lives on the prototype). So for every attribute key [K],
    constant ones such as 'shape' included, and two different named times
    [T1] and [T2] not yet cached for [K], [get(K, {time: T1})] and then
    [get(K, {time: T2})] answer two different percepts, each measured in
    the state asked for and cached under that time. *)
Theorem attr_get_two_percepts (K T1 T2 : string) (st : NodeState) :
  is_Some (obj_attrs_registry !! K) -> T1 <> "" -> T2 <> "" -> T1 <> T2 ->
  cache_lookup st (Some T1) K = None -> cache_lookup st (Some T2) K = None ->
  exists p1 st1 p2 st2,
    node_get K (mkGetOpts (Some T1) None false false) st = Some (RPercept p1, st1) /\
    node_get K (mkGetOpts (Some T2) None false false) st1 = Some (RPercept p2, st2) /\
    p1 <> p2 /\ measured_at p1 = Some T1 /\ measured_at p2 = Some T2 /\
    cache_lookup st2 (Some T1) K = Some (EAttr p1) /\
    cache_lookup st2 (Some T2) K = Some (EAttr p2).
Proof.
  intros [c HK] H1 H2 H12 E1 E2.
  assert (HK' : obj_attrs_registry !! K = Some false).
  { rewrite HK. f_equal. apply elem_of_list_to_map_2 in HK.
    repeat (apply elem_of_cons in HK; destruct HK as [HK|HK]; [injection HK; intros; subst; reflexivity|]).
    apply elem_of_nil in HK. contradiction. }
  clear HK c.
  assert (T1t : truthy (Some T1) = true)
    by (cbn [truthy]; apply negb_true_iff, String.eqb_neq; exact H1).
  assert (T2t : truthy (Some T2) = true)
    by (cbn [truthy]; apply negb_true_iff, String.eqb_neq; exact H2).
  rewrite !(node_get_attr _ _ _ _ HK').
  set (p1 := mkPercept (next_pid st) K None (Some T1)).
  set (st1 := set_entry T1 K (EAttr p1) (mkNodeState (times st) (Some T1) (S (next_pid st)) (node_obj st))).
  set (p2 := mkPercept (next_pid st1) K None (Some T2)).
  set (st2 := set_entry T2 K (EAttr p2) (mkNodeState (times st1) (Some T2) (S (next_pid st1)) (node_obj st1))).
  exists p1, st1, p2, st2.
  split; [apply (getAttr_named_miss K T1 st HK' T1t E1)|].
  split.
  { rewrite (node_get_attr _ _ _ _ HK'). apply (getAttr_named_miss K T2 st1 HK' T2t).
    unfold st1. rewrite cache_lookup_set, bool_decide_false by naive_solver. exact E2. }
  split; [unfold p1, p2, st1; cbn; intros [= H]; lia|].
  split; [reflexivity|]. split; [reflexivity|]. split.
  - unfold st2. rewrite cache_lookup_set, bool_decide_false by naive_solver.
    rewrite cache_lookup_mk. apply cache_set.
  - apply cache_set.
Qed.

Lemma attr_get_two_percepts_witness :
  is_Some (obj_attrs_registry !! "shape") /\ "end" <> "" /\ "start" <> "" /\ "end" <> "start" /\
  cache_lookup (mkNodeState empty None 0 0) (Some "end") "shape" = None /\
  cache_lookup (mkNodeState empty None 0 0) (Some "start") "shape" = None /\
  exists p1 st1 p2 st2,
    node_get "shape" (mkGetOpts (Some "end") None false false) (mkNodeState empty None 0 0)
      = Some (RPercept p1, st1) /\
    node_get "shape" (mkGetOpts (Some "start") None false false) st1 = Some (RPercept p2, st2) /\
    p1 <> p2 /\ measured_at p1 = Some "end" /\ measured_at p2 = Some "start" /\
    cache_lookup st2 (Some "end") "shape" = Some (EAttr p1) /\
    cache_lookup st2 (Some "start") "shape" = Some (EAttr p2).
Proof.
  assert (HK : is_Some (obj_attrs_registry !! "shape")) by (eexists; reflexivity).
  assert (H1 : "end" <> "") by discriminate.
  assert (H2 : "start" <> "") by discriminate.
  assert (H12 : "end" <> "start") by discriminate.
  assert (E1 : cache_lookup (mkNodeState empty None 0 0) (Some "end") "shape" = None) by reflexivity.
  assert (E2 : cache_lookup (mkNodeState empty None 0 0) (Some "start") "shape" = None) by reflexivity.
  split; [exact HK|]. split; [exact H1|]. split; [exact H2|]. split; [exact H12|].
  split; [exact E1|]. split; [exact E2|].
  apply (attr_get_two_percepts "shape" "end" "start" _ HK H1 H2 H12 E1 E2).
Defined.

(* ------------------------------------------------------------------ *)
(** ** Solutions *)

Lemma spc_count (pair : list SceneResult) (s : Solution) :
  scene_pair_count (fold_left count_scene pair s) = scene_pair_count s.
Proof. revert s. induction pair as [|sc pair IH]; intros s; simpl; [reflexivity|]. rewrite IH. reflexivity. Qed.

Lemma update_main_side_set (s : Solution) : exists ms, update_main_side s = setMainSide (Some ms) s.
Proof. unfold update_main_side. repeat case_match; eexists; reflexivity. Qed.

Lemma sol_reachable_spc (s : Solution) : sol_reachable s -> scene_pair_count s = 8.
Proof.
  induction 1 as [sel ms mode|pair pid s _ IH|ms s _ IH].
  - reflexivity.
  - unfold checkScenePair. destruct (update_main_side_set (push_pair_id pid (fold_left count_scene pair s)))
      as [ms ->]. cbn. rewrite spc_count. exact IH.
  - exact IH.
Qed.

Lemma repeat_check_reachable (n : nat) (pair : list SceneResult) (s : Solution) :
  sol_reachable s -> sol_reachable (repeat_check n pair s).
Proof.
  revert s. induction n as [|n IH]; intros s H; simpl; [exact H|]. apply IH. constructor. exact H.
Qed.

(** C4: on a solution the program reaches, if after the counting of
    [checkScenePair] no left scene matched and every checked right scene
    matched, with as many right checks as [scene_pair_count], the solution
    is one ([isSolution]) with main side 'right'; symmetrically for
    'left'. *)
Theorem checkScenePair_side (pair : list SceneResult) (pid : nat) (s : Solution) :
  sol_reachable s ->
  let c := fold_left count_scene pair s in
  (lmatches c = 0 -> rmatches c = rchecks c -> rchecks c = scene_pair_count c ->
   isSolution (checkScenePair pair pid s) = true /\ main_side (checkScenePair pair pid s) = "right") /\
  (rmatches c = 0 -> lmatches c = lchecks c -> lchecks c = scene_pair_count c ->
   isSolution (checkScenePair pair pid s) = true /\ main_side (checkScenePair pair pid s) = "left").
Proof.
  intros Hr c. pose proof (sol_reachable_spc s Hr) as Hs.
  assert (Hc : scene_pair_count c = 8) by (unfold c; rewrite spc_count; exact Hs).
  unfold checkScenePair, update_main_side. fold c.
  cbn [lmatches rmatches lchecks rchecks push_pair_id].
  split.
  - intros H1 H2 H3. rewrite H3, Hc in H2. rewrite H1, H2, H3, Hc. cbn.
    unfold isSolution. cbn. rewrite ?H1, ?H2, ?H3, ?Hc. split; reflexivity.
  - intros H1 H2 H3. assert (Hl : lmatches c = 8) by congruence.
    assert (Hlc : lchecks c = 8) by congruence. rewrite Hl, Hlc, H1. cbn.
    unfold isSolution. cbn. rewrite ?Hl, ?H1, ?Hc. split; reflexivity.
Qed.

Lemma checkScenePair_side_witness :
  sol_reachable (repeat_check 7 right_pair (new_Solution (new_Selector false) None None)) /\
  sol_reachable (repeat_check 7 left_pair (new_Solution (new_Selector false) None None)) /\
  (isSolution (checkScenePair right_pair 7
     (repeat_check 7 right_pair (new_Solution (new_Selector false) None None))) = true /\
   main_side (checkScenePair right_pair 7
     (repeat_check 7 right_pair (new_Solution (new_Selector false) None None))) = "right") /\
  (isSolution (checkScenePair left_pair 7
     (repeat_check 7 left_pair (new_Solution (new_Selector false) None None))) = true /\
   main_side (checkScenePair left_pair 7
     (repeat_check 7 left_pair (new_Solution (new_Selector false) None None))) = "left").
Proof.
  assert (HR : sol_reachable (repeat_check 7 right_pair (new_Solution (new_Selector false) None None)))
    by (apply repeat_check_reachable; constructor).
  assert (HL : sol_reachable (repeat_check 7 left_pair (new_Solution (new_Selector false) None None)))
    by (apply repeat_check_reachable; constructor).
  split; [exact HR|]. split; [exact HL|]. split.
  - apply (proj1 (checkScenePair_side right_pair 7 _ HR)); reflexivity.
  - apply (proj2 (checkScenePair_side left_pair 7 _ HL)); reflexivity.
Defined.

(* ------------------------------------------------------------------ *)
(** ** Negated relation matchers *)

Lemma Rgeb_true (x y : R) : (y <= x)%R -> Rgeb x y = true.
Proof. intros H. unfold Rgeb. destruct (Rle_dec y x); [reflexivity|contradiction]. Qed.

Lemma Rgeb_false (x y : R) : (x < y)%R -> Rgeb x y = false.
Proof. intros H. unfold Rgeb. destruct (Rle_dec y x); [lra|reflexivity]. Qed.

Lemma filter_all_length {A} (f : A -> bool) (l : list A) :
  Nat.eqb (length (filter f l)) (length l) = forallb f l.
Proof.
  induction l as [|x l IH]; [reflexivity|]. rewrite filter_cons. cbn [forallb length].
  case_decide as D; destruct (f x) eqn:E; cbn [Is_true andb] in *; try contradiction.
  - exact IH.
  - apply Nat.eqb_neq. pose proof (length_filter (fun y => Is_true (f y)) l). lia.
Qed.

Lemma forallb_pointwise {A} (f g : A -> bool) (l : list A) :
  (forall x, f x = g x) -> forallb f l = forallb g l.
Proof. intros H. induction l as [|x l IH]; cbn; [reflexivity|]. rewrite H, IH. reflexivity. Qed.

(** C3, counterexample: "not left of a rectangle" in [neg_env]. No object
    other than [0] is left of [0] (every relation percept is inactive), yet
    [matches(0)] answers [false]: object [1] is no rectangle, so it is not
    among the matching others. *)
Lemma not_left_of_rect_false :
  rel_matches neg_env not_left_of_rect 0 None = Some false /\
  Forall (fun o => (pv_activity (get_rel_view neg_env 0 "left_of" o "start") < activation_threshold)%R)
    (filter (fun on => negb (Nat.eqb on 0)) (scene_objs neg_env)).
Proof.
  split.
  - unfold rel_matches, matchesObject_test, attr_matches. cbn.
    rewrite (Rgeb_true 1 activation_threshold) by (unfold activation_threshold; lra).
    reflexivity.
  - cbn. repeat constructor. unfold activation_threshold. lra.
Qed.

(** C3, as the code has it: a matcher with [active = false] whose
    [other_sel] has no relation matchers holds on [node] iff EVERY
    candidate other (by default every scene object but [node]) is not
    [node], satisfies all object-attribute matchers of [other_sel], and has
    a relation percept with the matcher's label and an activity below the
    activation threshold. *)
Theorem rel_matches_negation (env : SelectEnv) (r : RelMatcher) (node : nat)
    (others : option (list nat)) :
  rm_active r = false -> rels (other_sel r) = [] ->
  rel_matches env r node others =
  Some (forallb (fun o =>
          negb (Nat.eqb o node) &&
          forallb (fun a => attr_matches env a o) (obj_attrs (other_sel r)) &&
          negb (Rgeb (pv_activity (get_rel_view env node (rm_key r) o (rm_time r)))
                     activation_threshold) &&
          String.eqb (pv_label (get_rel_view env node (rm_key r) o (rm_time r))) (rm_label r))
        (match others with
         | Some l => l
         | None => filter (fun on => negb (Nat.eqb on node)) (scene_objs env)
         end)).
Proof.
  intros Ha Hr. unfold rel_matches. rewrite Hr, Ha. cbn [length Nat.eqb negb].
  rewrite filter_all_length. f_equal. apply forallb_pointwise. intros o.
  unfold matchesObject_test.
  destruct (Nat.eqb o node); cbn [negb andb]; [apply andb_false_r|].
  destruct (forallb _ _), (Rgeb _ _); reflexivity.
Qed.

Lemma rel_matches_negation_witness :
  rm_active not_left_of_rect = false /\ rels (other_sel not_left_of_rect) = [] /\
  rel_matches neg_env not_left_of_rect 0 None =
  Some (forallb (fun o =>
          negb (Nat.eqb o 0) &&
          forallb (fun a => attr_matches neg_env a o) (obj_attrs (other_sel not_left_of_rect)) &&
          negb (Rgeb (pv_activity (get_rel_view neg_env 0 (rm_key not_left_of_rect) o
                                     (rm_time not_left_of_rect)))
                     activation_threshold) &&
          String.eqb (pv_label (get_rel_view neg_env 0 (rm_key not_left_of_rect) o
                                  (rm_time not_left_of_rect)))
                     (rm_label not_left_of_rect))
        (filter (fun on => negb (Nat.eqb on 0)) (scene_objs neg_env))).
Proof.
  split; [reflexivity|]. split; [reflexivity|].
  apply (rel_matches_negation neg_env not_left_of_rect 0 None); reflexivity.
Defined.

(* ------------------------------------------------------------------ *)
(** ** Further properties of the modelled code *)

Lemma exp_le_1 (y : R) : (exp y <= 1)%R <-> (y <= 0)%R.
Proof.
  rewrite <- exp_0. split; intros H.
  - destruct (Rle_lt_dec y 0) as [|Hy]; [assumption|].
    apply exp_increasing in Hy. lra.
  - destruct (Rle_lt_or_eq_dec _ _ H) as [Hy| ->]; [|lra].
    apply exp_increasing in Hy. lra.
Qed.

Lemma exp_ge_1 (y : R) : (1 <= exp y)%R <-> (0 <= y)%R.
Proof.
  rewrite <- exp_0. split; intros H.
  - destruct (Rle_lt_dec 0 y) as [|Hy]; [assumption|].
    apply exp_increasing in Hy. lra.
  - destruct (Rle_lt_or_eq_dec _ _ H) as [Hy| <-]; [|lra].
    apply exp_increasing in Hy. lra.
Qed.

Lemma inv_one_plus_le (E : R) : (0 < E)%R -> (1 / 2 <= 1 / (1 + E))%R <-> (E <= 1)%R.
Proof.
  intros HE. unfold Rdiv. rewrite !Rmult_1_l. split; intros H.
  - destruct (Rle_lt_dec E 1) as [|HE1]; [assumption|].
    assert (/ (1 + E) < / 2)%R by (apply Rinv_lt_contravar; nra). lra.
  - apply Rinv_le_contravar; lra.
Qed.

Lemma inv_one_plus_ge (E : R) : (0 < E)%R -> (1 / (1 + E) <= 1 / 2)%R <-> (1 <= E)%R.
Proof.
  intros HE. unfold Rdiv. rewrite !Rmult_1_l. split; intros H.
  - destruct (Rle_lt_dec 1 E) as [|HE1]; [assumption|].
    assert (/ 2 < / (1 + E))%R by (apply Rinv_lt_contravar; nra). lra.
  - apply Rinv_le_contravar; lra.
Qed.

Lemma sigmoid_half_le (a m x : R) : (0 < a)%R -> (1 / 2 <= sigmoid a m x)%R <-> (m <= x)%R.
Proof.
  intros Ha. unfold sigmoid. rewrite inv_one_plus_le by apply exp_pos.
  rewrite exp_le_1. split; intros H; nra.
Qed.

Lemma sigmoid_half_ge (a m x : R) : (0 < a)%R -> (sigmoid a m x <= 1 / 2)%R <-> (x <= m)%R.
Proof.
  intros Ha. unfold sigmoid. rewrite inv_one_plus_ge by apply exp_pos.
  rewrite exp_ge_1. split; intros H; nra.
Qed.

Lemma Q2R_le_const (q c : Q) (k : R) : Q2R c = k -> (Q2R q <= k)%R <-> (q <= c)%Q.
Proof.
  intros <-. split; [apply Rle_Qle | apply Qle_Rle].
Qed.

Lemma Q2R_ge_const (q c : Q) (k : R) : Q2R c = k -> (k <= Q2R q)%R <-> (c <= q)%Q.
Proof.
  intros <-. split; [apply Rle_Qle | apply Qle_Rle].
Qed.

(** X1: the moves attribute is active (activity at least 1/2) exactly when the speed now or the speed 0.1 s later is at least 0.1. *)
Theorem moves_active_iff (val val_soon : Q) :
  (1 / 2 <= moves_activity val val_soon)%R <-> (1 # 10 <= val)%Q \/ (1 # 10 <= val_soon)%Q.
Proof.
  unfold moves_activity, moves_membership. rewrite Rmax_Rle.
  rewrite !sigmoid_half_le by lra.
  rewrite !(Q2R_ge_const _ (1 # 10) (1 / 10)) by (unfold Q2R; simpl; lra).
  reflexivity.
Qed.

(** X2: the is_supported attribute is active exactly when both the speed now and the speed 0.1 s later are at most 0.1. *)
Theorem is_supported_active_iff (val val_soon : Q) :
  (1 / 2 <= is_supported_activity val val_soon)%R <-> (val <= 1 # 10)%Q /\ (val_soon <= 1 # 10)%Q.
Proof.
  unfold is_supported_activity, is_supported_membership.
  rewrite <- !(Q2R_le_const _ (1 # 10) (1 / 10)) by (unfold Q2R; simpl; lra).
  rewrite <- !(sigmoid_half_ge 40 (1 / 10)) by lra.
  split.
  - intros H. split; [pose proof (Rmax_l (sigmoid 40 (1/10) (Q2R val)) (sigmoid 40 (1/10) (Q2R val_soon)))
                    | pose proof (Rmax_r (sigmoid 40 (1/10) (Q2R val)) (sigmoid 40 (1/10) (Q2R val_soon)))]; lra.
  - intros [H1 H2]. pose proof (Rmax_lub _ _ _ H1 H2). lra.
Qed.

Lemma small_activity_half (area : Q) :
  (1 / 2 <= small_activity area)%R <-> (Qabs area <= 180)%Q.
Proof.
  unfold small_activity, small_membership.
  assert (E : forall y : R, (1 / 2 <= 1 - y)%R <-> (y <= 1 / 2)%R) by (intros; lra).
  rewrite E, sigmoid_half_ge by lra.
  rewrite <- (Q2R_le_const _ 180 180) by (unfold Q2R; simpl; lra). lra.
Qed.

(** X4: the large attribute is active exactly when the absolute area is at least 200, and no area makes an object both small and large. *)
Theorem large_active_iff (area : Q) :
  ((1 / 2 <= large_activity area)%R <-> (200 <= Qabs area)%Q) /\
  ~ ((1 / 2 <= small_activity area)%R /\ (1 / 2 <= large_activity area)%R).
Proof.
  assert (L : (1 / 2 <= large_activity area)%R <-> (200 <= Qabs area)%Q).
  { unfold large_activity, large_membership. rewrite sigmoid_half_le by lra.
    rewrite <- (Q2R_ge_const _ 200 200) by (unfold Q2R; simpl; lra). lra. }
  split; [exact L|]. rewrite small_activity_half, L.
  intros [H1 H2]. pose proof (Qle_trans _ _ _ H2 H1) as H. apply Qle_bool_iff in H. vm_compute in H. discriminate H.
Qed.

(** X5: the close relation is active exactly when the distance is at most 20, the far relation exactly when it is at least 25, and never both. *)
Theorem close_far_rel_active (dist : Q) :
  ((1 / 2 <= close_rel_activity dist)%R <-> (dist <= 20)%Q) /\
  ((1 / 2 <= far_rel_activity dist)%R <-> (25 <= dist)%Q) /\
  ~ ((1 / 2 <= close_rel_activity dist)%R /\ (1 / 2 <= far_rel_activity dist)%R).
Proof.
  assert (C : (1 / 2 <= close_rel_activity dist)%R <-> (dist <= 20)%Q).
  { unfold close_rel_activity, close_membership.
    assert (E : forall y : R, (1 / 2 <= 1 - y)%R <-> (y <= 1 / 2)%R) by (intros; lra).
    rewrite E, sigmoid_half_ge by lra.
    rewrite <- (Q2R_le_const _ 20 20) by (unfold Q2R; simpl; lra). lra. }
  assert (F : (1 / 2 <= far_rel_activity dist)%R <-> (25 <= dist)%Q).
  { unfold far_rel_activity, far_membership. rewrite sigmoid_half_le by lra.
    rewrite <- (Q2R_ge_const _ 25 25) by (unfold Q2R; simpl; lra). lra. }
  split; [exact C|]. split; [exact F|]. rewrite C, F.
  intros [H1 H2]. pose proof (Qle_trans _ _ _ H2 H1) as H. apply Qle_bool_iff in H. vm_compute in H. discriminate H.
Qed.

Lemma insert_edge_in (e x : Edge) (l : list Edge) : In x (insert_edge e l) <-> x = e \/ In x l.
Proof.
  induction l as [|y l IH]; simpl; [intuition congruence|].
  destruct (Qlt_bool (edist e) (edist y)); simpl; [intuition congruence|]. rewrite IH.
  intuition congruence.
Qed.

Lemma fold_insert_in (l acc : list Edge) (x : Edge) :
  In x (fold_left (fun acc e => insert_edge e acc) l acc) <-> In x l \/ In x acc.
Proof.
  revert acc. induction l as [|e l IH]; intros acc; simpl; [tauto|].
  rewrite IH, insert_edge_in. intuition congruence.
Qed.

Lemma sort_edges_in (l : list Edge) (x : Edge) : In x (sort_edges l) <-> In x l.
Proof. unfold sort_edges. rewrite fold_insert_in, <- in_rev. simpl. tauto. Qed.

Lemma Qlt_bool_iff (x y : Q) : Qlt_bool x y = true <-> (x < y)%Q.
Proof.
  unfold Qlt_bool. rewrite negb_true_iff. split; intros H.
  - apply Qnot_le_lt. intros H'. apply Qle_bool_iff in H'. congruence.
  - destruct (Qle_bool y x) eqn:E; [|reflexivity]. apply Qle_bool_iff in E.
    exfalso. apply (Qlt_not_le _ _ H E).
Qed.

Lemma Qlt_bool_false (x y : Q) : Qlt_bool x y = false -> (y <= x)%Q.
Proof. unfold Qlt_bool. rewrite negb_false_iff. apply Qle_bool_iff. Qed.

Lemma insert_edge_sorted (e : Edge) (l : list Edge) :
  StronglySorted edge_le l -> StronglySorted edge_le (insert_edge e l).
Proof.
  induction l as [|y l IH]; simpl; intros H.
  - constructor; constructor.
  - apply StronglySorted_inv in H as [Hl Hy].
    destruct (Qlt_bool (edist e) (edist y)) eqn:E.
    + apply Qlt_bool_iff in E. constructor; [constructor; assumption|].
      constructor; [unfold edge_le; apply Qlt_le_weak, E|].
      rewrite List.Forall_forall in *. intros z Hz. unfold edge_le in *.
      apply Qle_trans with (edist y); [apply Qlt_le_weak, E|auto].
    + apply Qlt_bool_false in E. constructor; [apply IH, Hl|].
      apply List.Forall_forall. intros z Hz. apply insert_edge_in in Hz as [->|Hz]; [exact E|].
      rewrite List.Forall_forall in Hy. auto.
Qed.

Lemma sort_edges_sorted (l : list Edge) : StronglySorted edge_le (sort_edges l).
Proof.
  unfold sort_edges. generalize (@SSorted_nil _ edge_le).
  generalize (@nil Edge). induction (rev l) as [|e l' IH]; intros acc H; simpl; [exact H|].
  apply IH, insert_edge_sorted, H.
Qed.

Lemma sorted_remove {A} (R : A -> A -> Prop) (l1 l2 : list A) (x : A) :
  StronglySorted R (l1 ++ x :: l2) -> StronglySorted R (l1 ++ l2).
Proof.
  induction l1 as [|y l1 IH]; simpl; intros H.
  - apply StronglySorted_inv in H. apply H.
  - apply StronglySorted_inv in H as [Hl Hy]. constructor; [apply IH, Hl|].
    rewrite List.Forall_forall in *. intros z Hz. apply Hy.
    apply in_app_or in Hz as [Hz|Hz]; apply in_or_app; simpl; auto.
Qed.

Lemma mst_step_snd (acc : list (list nat) * list Edge) (e : Edge) :
  snd (mst_step acc e) = snd acc \/ snd (mst_step acc e) = app (snd acc) [e].
Proof.
  destruct acc as [sets mst]. unfold mst_step.
  destruct (bool_decide _); [left; reflexivity|].
  destruct (last_index_of (ea e) sets 0 None), (last_index_of (eb e) sets 0 None); right; reflexivity.
Qed.

Lemma mst_fold_sorted (l : list Edge) (acc : list (list nat) * list Edge) :
  StronglySorted edge_le (app (snd acc) l) -> StronglySorted edge_le (snd (fold_left mst_step l acc)).
Proof.
  revert acc. induction l as [|e l IH]; intros acc H; simpl.
  - rewrite app_nil_r in H. exact H.
  - apply IH. destruct (mst_step_snd acc e) as [-> | ->].
    + apply (sorted_remove _ _ _ e H).
    + rewrite <- app_assoc. exact H.
Qed.

Lemma mst_fold_in (l : list Edge) (acc : list (list nat) * list Edge) (x : Edge) :
  In x (snd (fold_left mst_step l acc)) -> In x (snd acc) \/ In x l.
Proof.
  revert acc. induction l as [|e l IH]; intros acc H; simpl in *; [auto|].
  destruct (IH _ H) as [Hx|Hx]; [|auto].
  destruct (mst_step_snd acc e) as [E|E]; rewrite E in Hx; [auto|].
  apply in_app_or in Hx as [Hx|[<-|[]]]; auto.
Qed.

Lemma mst_fold_prefix (l : list Edge) (acc : list (list nat) * list Edge) :
  exists suf, snd (fold_left mst_step l acc) = app (snd acc) suf.
Proof.
  revert acc. induction l as [|e l IH]; intros acc; simpl.
  - exists []. rewrite app_nil_r. reflexivity.
  - destruct (IH (mst_step acc e)) as [suf E]. rewrite E.
    destruct (mst_step_snd acc e) as [-> | ->]; [eauto|].
    exists (e :: suf). rewrite <- app_assoc. reflexivity.
Qed.

Lemma sorted_last_max (l : list Edge) (y : Edge) :
  StronglySorted edge_le l -> last l = Some y -> forall x, In x l -> edge_le x y.
Proof.
  intros H Hl. apply last_Some in Hl as [l' ->]. induction l' as [|z l' IH]; simpl in *.
  - intros x [<-|[]]. unfold edge_le. apply Qle_refl.
  - apply StronglySorted_inv in H as [H Hz]. intros x [<-|Hx]; [|auto].
    rewrite List.Forall_forall in Hz. apply Hz. apply in_or_app. simpl. auto.
Qed.

Lemma getMST_edges_in (nodes : list nat) (edges : list Edge) (e : Edge) :
  In e (getMST nodes edges) -> In e edges.
Proof. unfold getMST. intros He. apply mst_fold_in in He as [[]|He]. apply sort_edges_in, He. Qed.

Lemma getMST_last_ge (nodes : list nat) (edges : list Edge) (l : Edge) :
  last (getMST nodes edges) = Some l -> forall e, In e (getMST nodes edges) -> (edist e <= edist l)%Q.
Proof.
  intros Hl e He. refine (sorted_last_max _ _ _ Hl e He). unfold getMST.
  apply mst_fold_sorted. apply sort_edges_sorted.
Qed.

(** X6: every edge of the tree built by CloseAttribute.getMST is one of the given edges, and the last edge added is the longest. *)
Theorem getMST_last_max (nodes : list nat) (edges : list Edge) (l : Edge) :
  last (getMST nodes edges) = Some l ->
  forall e, In e (getMST nodes edges) -> In e edges /\ (edist e <= edist l)%Q.
Proof.
  intros Hl e He. split; [apply (getMST_edges_in nodes), He | apply (getMST_last_ge nodes edges l Hl e He)].
Qed.

Lemma getMST_last_max_witness :
  last (getMST [0; 1; 2] [mkEdge 1 0 5; mkEdge 2 0 3; mkEdge 2 1 4]) = Some (mkEdge 2 1 4) /\
  forall e, In e (getMST [0; 1; 2] [mkEdge 1 0 5; mkEdge 2 0 3; mkEdge 2 1 4]) ->
    In e [mkEdge 1 0 5; mkEdge 2 0 3; mkEdge 2 1 4] /\ (edist e <= edist (mkEdge 2 1 4))%Q.
Proof.
  assert (H : last (getMST [0; 1; 2] [mkEdge 1 0 5; mkEdge 2 0 3; mkEdge 2 1 4]) = Some (mkEdge 2 1 4))
    by (vm_compute; reflexivity).
  split; [exact H | apply (getMST_last_max _ _ _ H)].
Defined.

Lemma last_index_of_singletons (a m s : nat) (found : option nat) :
  last_index_of a (map (fun n => [n]) (seq s m)) s found =
  if bool_decide (s <= a < s + m) then Some a else found.
Proof.
  revert s found. induction m as [|m IH]; intros s found; simpl.
  - rewrite bool_decide_false by lia. reflexivity.
  - rewrite IH. rewrite (bool_decide_ext (a ∈ [s]) (a = s)) by apply list_elem_of_singleton.
    repeat case_bool_decide; subst; try reflexivity; lia.
Qed.

Lemma group_edges_in (distance : nat -> nat -> Q) (objs : list nat) (e : Edge) :
  In e (group_edges distance objs) <->
  exists i j, j < i < length objs /\ e = mkEdge i j (distance (nth i objs 0) (nth j objs 0)).
Proof.
  unfold group_edges. rewrite in_flat_map. split.
  - intros [i [Hi He]]. apply in_map_iff in He as [j [<- Hj]].
    apply in_seq in Hi, Hj. exists i, j. split; [lia|reflexivity].
  - intros [i [j [Hij ->]]]. exists i. split; [apply in_seq; lia|].
    apply in_map_iff. exists j. split; [reflexivity|apply in_seq; lia].
Qed.

Lemma Forall_group_edges (P : Edge -> Prop) (distance : nat -> nat -> Q) (objs : list nat) :
  Forall P (group_edges distance objs) <->
  forall i j, j < i < length objs -> P (mkEdge i j (distance (nth i objs 0) (nth j objs 0))).
Proof.
  rewrite List.Forall_forall. split.
  - intros H i j Hij. apply H, group_edges_in. eauto.
  - intros H e He. apply group_edges_in in He as [i [j [Hij ->]]]. auto.
Qed.

Lemma mst_first_step (n i j : nat) (d : Q) :
  j < i < n ->
  snd (mst_step (map (fun k => [k]) (seq 0 n), []) (mkEdge i j d)) = [mkEdge i j d].
Proof.
  intros H. unfold mst_step. cbn [ea eb]. rewrite !last_index_of_singletons.
  rewrite (bool_decide_true (0 <= i < 0 + n)) by lia.
  rewrite (bool_decide_true (0 <= j < 0 + n)) by lia.
  rewrite bool_decide_false by (intros E; injection E; lia).
  reflexivity.
Qed.

Lemma getMST_group_nonempty (distance : nat -> nat -> Q) (objs : list nat) :
  2 <= length objs -> getMST (seq 0 (length objs)) (group_edges distance objs) <> [].
Proof.
  intros H.
  assert (Hin : In (mkEdge 1 0 (distance (nth 1 objs 0) (nth 0 objs 0))) (sort_edges (group_edges distance objs))).
  { apply sort_edges_in, group_edges_in. exists 1, 0. split; [lia|reflexivity]. }
  unfold getMST. destruct (sort_edges (group_edges distance objs)) as [|e0 rest] eqn:E; [destruct Hin|].
  assert (He0 : In e0 (group_edges distance objs)) by (apply sort_edges_in; rewrite E; left; reflexivity).
  apply group_edges_in in He0 as [i [j [Hij ->]]]. cbn [fold_left].
  match goal with |- snd (fold_left mst_step rest ?acc) <> [] =>
    destruct (mst_fold_prefix rest acc) as [suf Hs] end.
  rewrite Hs, mst_first_step by lia. discriminate.
Qed.

Lemma getMST_group_last (distance : nat -> nat -> Q) (objs : list nat) :
  2 <= length objs -> exists l, last (getMST (seq 0 (length objs)) (group_edges distance objs)) = Some l.
Proof.
  intros H. apply getMST_group_nonempty with (distance := distance) in H.
  apply last_is_Some in H as [l Hl]. eauto.
Qed.

Lemma close_membership_half (q : Q) : (1 / 2 <= close_membership (Fin q))%R <-> (q <= 20)%Q.
Proof.
  unfold close_membership.
  assert (E : forall y : R, (1 / 2 <= 1 - y)%R <-> (y <= 1 / 2)%R) by (intros; lra).
  rewrite E, sigmoid_half_ge by lra.
  rewrite <- (Q2R_le_const _ 20 20) by (unfold Q2R; simpl; lra). lra.
Qed.

Lemma far_membership_half (q : Q) : (1 / 2 <= far_membership (Fin q))%R <-> (25 <= q)%Q.
Proof.
  unfold far_membership. rewrite sigmoid_half_le by lra.
  rewrite <- (Q2R_ge_const _ 25 25) by (unfold Q2R; simpl; lra). lra.
Qed.

Lemma mst_all_le (nodes : list nat) (edges : list Edge) (l : Edge) (c : Q) :
  last (getMST nodes edges) = Some l ->
  (edist l <= c)%Q <-> Forall (fun e => (edist e <= c)%Q) (getMST nodes edges).
Proof.
  intros Hl. rewrite List.Forall_forall. split.
  - intros H e He. eapply Qle_trans; [apply (getMST_last_ge nodes edges l Hl e He)|exact H].
  - intros H. apply H. apply list_elem_of_In, last_Some_elem_of, Hl.
Qed.

(** X7: for a group of at least 2 objects, the close attribute is defined, and it is active exactly when every edge of the minimum spanning tree of the group has length at most 20. *)
Theorem close_attr_activity_mst (distance : nat -> nat -> Q) (objs : list nat) :
  2 <= length objs ->
  exists a, close_attr_activity distance objs = Some a /\
    ((1 / 2 <= a)%R <->
     Forall (fun e => (edist e <= 20)%Q) (getMST (seq 0 (length objs)) (group_edges distance objs))).
Proof.
  intros H. destruct (getMST_group_last distance objs H) as [l Hl].
  unfold close_attr_activity, close_attr_val, last_mst_dist.
  rewrite (proj2 (Nat.ltb_ge _ _) H), Hl. cbn [isNaN].
  eexists; split; [reflexivity|]. rewrite close_membership_half. apply (mst_all_le _ _ _ _ Hl).
Qed.

Lemma close_attr_activity_mst_witness :
  2 <= length [0; 1; 2] /\
  exists a, close_attr_activity (fun i j => inject_Z (Z.of_nat (i + j) * 10)) [0; 1; 2] = Some a /\
    ((1 / 2 <= a)%R <->
     Forall (fun e => (edist e <= 20)%Q)
       (getMST (seq 0 (length [0; 1; 2])) (group_edges (fun i j => inject_Z (Z.of_nat (i + j) * 10)) [0; 1; 2]))).
Proof.
  assert (H : 2 <= length [0; 1; 2]) by (simpl; lia).
  split; [exact H | apply (close_attr_activity_mst _ _ H)].
Defined.

(** X8: for a group of at least 2 objects, the touching attribute is 0 or 1, and it is 1 exactly when every edge of the minimum spanning tree of the group has length at most 0.5. *)
Theorem touch_attr_activity_mst (distance : nat -> nat -> Q) (objs : list nat) :
  2 <= length objs ->
  exists a, touch_attr_activity distance objs = Some a /\ (a = 0%R \/ a = 1%R) /\
    (a = 1%R <->
     Forall (fun e => (edist e <= 1 # 2)%Q) (getMST (seq 0 (length objs)) (group_edges distance objs))).
Proof.
  intros H. destruct (getMST_group_last distance objs H) as [l Hl].
  unfold touch_attr_activity, touch_attr_val, last_mst_dist.
  rewrite (proj2 (Nat.ltb_ge _ _) H), Hl. cbn [isNaN touch_membership].
  eexists; split; [reflexivity|]. rewrite <- (mst_all_le _ _ _ _ Hl).
  destruct (Qle_bool (edist l) (1 # 2)) eqn:E.
  - apply Qle_bool_iff in E. split; [right; reflexivity|]. tauto.
  - split; [left; reflexivity|]. split; [intros F; exfalso; lra|].
    intros F. apply Qle_bool_iff in F. congruence.
Qed.

Lemma touch_attr_activity_mst_witness :
  2 <= length [0; 1] /\
  exists a, touch_attr_activity (fun _ _ => 0%Q) [0; 1] = Some a /\ (a = 0%R \/ a = 1%R) /\
    (a = 1%R <->
     Forall (fun e => (edist e <= 1 # 2)%Q) (getMST (seq 0 (length [0; 1])) (group_edges (fun _ _ => 0%Q) [0; 1]))).
Proof.
  assert (H : 2 <= length [0; 1]) by (simpl; lia).
  split; [exact H | apply (touch_attr_activity_mst _ _ H)].
Defined.

Lemma far_fold_fin (x : Q) (l : list Edge) :
  exists m,
    fold_left (fun v e => match v with
                          | Fin x => if Qlt_bool (edist e) x then Fin (edist e) else v
                          | _ => Fin (edist e)
                          end) l (Fin x) = Fin m /\
    forall c, (c <= m)%Q <-> (c <= x)%Q /\ Forall (fun e => (c <= edist e)%Q) l.
Proof.
  revert x. induction l as [|e l IH]; intros x; cbn [fold_left].
  - exists x. split; [reflexivity|]. intros c. split; [intros H; split; [exact H|constructor]|tauto].
  - destruct (Qlt_bool (edist e) x) eqn:E.
    + apply Qlt_bool_iff in E. destruct (IH (edist e)) as [m [Hm Hc]]. exists m. split; [exact Hm|].
      intros c. rewrite Hc, List.Forall_cons_iff. split.
      * intros [H1 H2]. split; [|tauto]. apply Qle_trans with (edist e); [exact H1|apply Qlt_le_weak, E].
      * tauto.
    + apply Qlt_bool_false in E. destruct (IH x) as [m [Hm Hc]]. exists m. split; [exact Hm|].
      intros c. rewrite Hc, List.Forall_cons_iff. split.
      * intros [H1 H2]. split; [exact H1|]. split; [apply Qle_trans with x; assumption|exact H2].
      * tauto.
Qed.

(** X9: for a group of at least 2 objects, the far attribute is active exactly when every pair of distinct objects is at least 25 apart. *)
Theorem far_attr_activity_pairs (distance : nat -> nat -> Q) (objs : list nat) :
  2 <= length objs ->
  (1 / 2 <= far_attr_activity distance objs)%R <->
  (forall i j, j < i < length objs -> (25 <= distance (nth i objs 0%nat) (nth j objs 0%nat))%Q).
Proof.
  intros H. transitivity (Forall (fun e => (25 <= edist e)%Q) (group_edges distance objs));
    [|apply (Forall_group_edges (fun e => (25 <= edist e)%Q))].
  assert (Hin : In (mkEdge 1 0 (distance (nth 1 objs 0) (nth 0 objs 0))) (group_edges distance objs)).
  { apply group_edges_in. exists 1, 0. split; [lia|reflexivity]. }
  unfold far_attr_activity, far_attr_val. rewrite (proj2 (Nat.ltb_ge _ _) H).
  destruct (group_edges distance objs) as [|e0 rest]; [destruct Hin|]. cbn [fold_left].
  destruct (far_fold_fin (edist e0) rest) as [m [Hm Hc]]. rewrite Hm. cbn [isNaN].
  rewrite far_membership_half, Hc, List.Forall_cons_iff. reflexivity.
Qed.

Lemma far_attr_activity_pairs_witness :
  2 <= length (seq 0 3) /\
  ((1 / 2 <= far_attr_activity (fun _ _ => 30%Q) (seq 0 3))%R <->
   (forall i j, j < i < length (seq 0 3) -> (25 <= (fun _ _ => 30%Q) (nth i (seq 0 3) 0%nat) (nth j (seq 0 3) 0%nat))%Q)).
Proof.
  assert (H : 2 <= length (seq 0 3)) by (simpl; lia).
  split; [exact H | exact (far_attr_activity_pairs (fun _ _ => 30%Q) _ H)].
Defined.


Lemma replace_or_push_length {A} (f : A -> bool) (x : A) (l : list A) :
  length l <= length (replace_or_push f x l) <= S (length l) /\ 0 < length (replace_or_push f x l).
Proof.
  induction l as [|y l IH]; simpl; [lia|]. destruct (f y); simpl; lia.
Qed.

Lemma featureCount_add_attr (m : AttrMatcher) (s : Selector) :
  featureCount s <= featureCount (add_attr m s) <= S (featureCount s) /\ 0 < featureCount (add_attr m s).
Proof.
  destruct s as [oa ga rs u]. unfold add_attr, featureCount.
  destruct (String.eqb (am_type m) "group"); cbn [obj_attrs grp_attrs rels].
  - pose proof (replace_or_push_length (fun a => attr_same a m) m ga). lia.
  - pose proof (replace_or_push_length (fun a => attr_same a m) m oa). lia.
Qed.

Lemma featureCount_add_rel (m : RelMatcher) (s : Selector) :
  featureCount s <= featureCount (add_rel m s) <= S (featureCount s) /\ 0 < featureCount (add_rel m s).
Proof.
  destruct s as [oa ga rs u]. unfold add_rel, featureCount. cbn [obj_attrs grp_attrs rels].
  pose proof (replace_or_push_length (fun r => rel_same r m) m rs). lia.
Qed.

Lemma featureCount_add_attrs (l : list AttrMatcher) (s : Selector) :
  featureCount s <= featureCount (add_attrs l s) <= length l + featureCount s /\
  (featureCount (add_attrs l s) = 0 <-> l = [] /\ featureCount s = 0).
Proof.
  unfold add_attrs. revert s. induction l as [|a l IH]; intros s; simpl.
  - split; [lia|]. intuition.
  - destruct (IH (add_attr a s)) as [B Z]. pose proof (featureCount_add_attr a s) as F.
    split; [lia|]. split; [intros H0; lia|intros [H0 _]; discriminate].
Qed.

Lemma featureCount_add_rels (l : list RelMatcher) (s : Selector) :
  featureCount s <= featureCount (add_rels l s) <= length l + featureCount s /\
  (featureCount (add_rels l s) = 0 <-> l = [] /\ featureCount s = 0).
Proof.
  unfold add_rels. revert s. induction l as [|a l IH]; intros s; simpl.
  - split; [lia|]. intuition.
  - destruct (IH (add_rel a s)) as [B Z]. pose proof (featureCount_add_rel a s) as F.
    split; [lia|]. split; [intros H0; lia|intros [H0 _]; discriminate].
Qed.

Lemma blank_featureCount (s : Selector) : blank s = true <-> featureCount s = 0.
Proof.
  unfold blank, featureCount. rewrite !andb_true_iff, !Nat.eqb_eq. lia.
Qed.

Lemma featureCount_zero (s : Selector) :
  featureCount s = 0 <-> obj_attrs s = [] /\ grp_attrs s = [] /\ rels s = [].
Proof.
  unfold featureCount. rewrite <- !length_zero_iff_nil. lia.
Qed.

(** X10: a merged selector is blank exactly when both inputs are blank, and its feature count is at most the sum of their feature counts. *)
Theorem mergedWith_blank_featureCount (s o : Selector) :
  blank (mergedWith s o) = blank s && blank o /\
  featureCount (mergedWith s o) <= featureCount s + featureCount o.
Proof.
  unfold mergedWith.
  set (s0 := new_Selector false).
  set (s1 := add_attrs (obj_attrs s) s0). set (s2 := add_attrs (obj_attrs o) s1).
  set (s3 := add_attrs (grp_attrs s) s2). set (s4 := add_attrs (grp_attrs o) s3).
  set (s5 := add_rels (rels s) s4).
  destruct (featureCount_add_attrs (obj_attrs s) s0) as [B1 Z1].
  destruct (featureCount_add_attrs (obj_attrs o) s1) as [B2 Z2].
  destruct (featureCount_add_attrs (grp_attrs s) s2) as [B3 Z3].
  destruct (featureCount_add_attrs (grp_attrs o) s3) as [B4 Z4].
  destruct (featureCount_add_rels (rels s) s4) as [B5 Z5].
  destruct (featureCount_add_rels (rels o) s5) as [B6 Z6].
  fold s1 s2 s3 s4 s5 in B1, Z1, B2, Z2, B3, Z3, B4, Z4, B5, Z5, B6, Z6.
  assert (F0 : featureCount s0 = 0) by reflexivity.
  split.
  - apply Bool.eq_iff_eq_true. rewrite andb_true_iff, !blank_featureCount, Z6, Z5, Z4, Z3, Z2, Z1.
    rewrite !featureCount_zero. tauto.
  - unfold featureCount in *. lia.
Qed.

Lemma sel_clone_wf (s : Selector) : sel_wf s -> sel_clone s = s.
Proof.
  destruct s as [oa ga rs u]. unfold sel_wf. cbn [obj_attrs grp_attrs rels].
  intros [Po [To [Pg [Tg Pr]]]]. unfold sel_clone, new_Selector. cbn [obj_attrs grp_attrs rels unique].
  rewrite add_attrs_obj by assumption. rewrite add_attrs_grp by assumption.
  rewrite add_rels_eq.
  rewrite (fold_add_fresh attr_same oa []) by exact Po.
  rewrite (fold_add_fresh attr_same ga []) by exact Pg.
  rewrite (fold_add_fresh rel_same rs []) by exact Pr. reflexivity.
Qed.

(** X11: cloning a selector built by adding matchers to a new selector gives back the same selector. *)
Theorem sel_clone_built (s : Selector) : built s -> sel_clone s = s.
Proof. intros Hb. apply sel_clone_wf, built_wf, Hb. Qed.

Lemma sel_clone_built_witness :
  built (add_attr shape_rect_matcher (new_Selector true)) /\
  sel_clone (add_attr shape_rect_matcher (new_Selector true)) = add_attr shape_rect_matcher (new_Selector true).
Proof.
  assert (Hb : built (add_attr shape_rect_matcher (new_Selector true))) by (constructor; constructor).
  split; [exact Hb | apply (sel_clone_built _ Hb)].
Defined.

Lemma side_or_both_nonempty (ms : option string) : side_or_both ms <> "".
Proof.
  unfold side_or_both. destruct ms as [m|]; [|discriminate].
  destruct (String.eqb m "") eqn:E; [discriminate|]. apply String.eqb_neq in E. exact E.
Qed.

Lemma side_or_both_id (m : string) : m <> "" -> side_or_both (Some m) = m.
Proof. intros H. unfold side_or_both. apply String.eqb_neq in H. rewrite H. reflexivity. Qed.

Lemma mode_fold_count (pair : list SceneResult) (s : Solution) :
  sol_mode (fold_left count_scene pair s) = sol_mode s.
Proof. revert s. induction pair as [|sc pair IH]; intros s; simpl; [reflexivity|]. rewrite IH. reflexivity. Qed.


Lemma sol_reachable_nonempty (s : Solution) :
  sol_reachable s -> main_side s <> "" /\ sol_mode s <> "".
Proof.
  induction 1 as [sel ms mode|pair pid s _ [IHm IHo]|ms s _ [IHm IHo]].
  - split; [apply side_or_both_nonempty|]. cbn.
    destruct mode as [m|]; [|discriminate].
    destruct (String.eqb m "") eqn:E; [discriminate|]. apply String.eqb_neq in E. exact E.
  - unfold checkScenePair. destruct (update_main_side_set (push_pair_id pid (fold_left count_scene pair s))) as [ms ->].
    split; [apply side_or_both_nonempty|]. cbn. rewrite mode_fold_count. exact IHo.
  - split; [apply side_or_both_nonempty|exact IHo].
Qed.

Lemma sel_equals_ignores_unique (oa ga : list AttrMatcher) (rs : list RelMatcher) (u u' : bool) :
  sel_equals (mkSelector oa ga rs u) (mkSelector oa ga rs u') = true.
Proof.
  transitivity (sel_equals (mkSelector oa ga rs u') (mkSelector oa ga rs u'));
    [reflexivity | apply sel_equals_refl].
Qed.

(** X12: the clone of a reachable solution with a built selector equals it, keeps its main side and has all counters reset. *)
Theorem Solution_clone_equals (s : Solution) :
  sol_reachable s -> built (sol_sel s) ->
  Solution_equals (Solution_clone s) s = true /\
  main_side (Solution_clone s) = main_side s /\
  lchecks (Solution_clone s) = 0 /\ rchecks (Solution_clone s) = 0 /\
  lmatches (Solution_clone s) = 0 /\ rmatches (Solution_clone s) = 0 /\
  matchedAgainst (Solution_clone s) = [].
Proof.
  intros Hr Hb. destruct (sol_reachable_nonempty s Hr) as [Hm Ho].
  unfold Solution_clone, Solution_equals. rewrite (sel_clone_wf _ (built_wf _ Hb)).
  cbn [new_Solution setMainSide sol_mode sol_sel main_side lchecks rchecks lmatches rmatches matchedAgainst].
  apply String.eqb_neq in Ho as Ho'. rewrite Ho', sel_equals_refl, String.eqb_refl.
  rewrite side_or_both_id by exact Hm. repeat split.
Qed.

Lemma Solution_clone_equals_witness :
  sol_reachable (new_Solution (new_Selector false) (Some "left") (Some "unique")) /\
  built (sol_sel (new_Solution (new_Selector false) (Some "left") (Some "unique"))) /\
  (let s := new_Solution (new_Selector false) (Some "left") (Some "unique") in
   Solution_equals (Solution_clone s) s = true /\
   main_side (Solution_clone s) = main_side s /\
   lchecks (Solution_clone s) = 0 /\ rchecks (Solution_clone s) = 0 /\
   lmatches (Solution_clone s) = 0 /\ rmatches (Solution_clone s) = 0 /\
   matchedAgainst (Solution_clone s) = []).
Proof.
  assert (Hr : sol_reachable (new_Solution (new_Selector false) (Some "left") (Some "unique"))) by constructor.
  assert (Hb : built (sol_sel (new_Solution (new_Selector false) (Some "left") (Some "unique")))) by constructor.
  split; [exact Hr|]. split; [exact Hb|]. exact (Solution_clone_equals _ Hr Hb).
Defined.

(** X13: a merged solution has mode exists, the merged selector and fresh counters. *)
Theorem Solution_mergedWith_mode (s o m : Solution) :
  Solution_mergedWith s o = Some m ->
  sol_mode m = "exists" /\ sol_sel m = mergedWith (sol_sel s) (sol_sel o) /\
  lchecks m = 0 /\ rchecks m = 0 /\ lmatches m = 0 /\ rmatches m = 0 /\ matchedAgainst m = [].
Proof.
  unfold Solution_mergedWith. intros H.
  destruct (if String.eqb (main_side o) (main_side s) then _ else _) as [sd|]; [|discriminate].
  injection H as <-. cbn.
  destruct (String.eqb (sol_mode s) (sol_mode o)); repeat split.
Qed.

Lemma Solution_mergedWith_mode_witness :
  Solution_mergedWith (new_Solution (new_Selector false) (Some "left") (Some "unique"))
                      (new_Solution (new_Selector false) (Some "left") (Some "unique")) =
    Some (new_Solution (mergedWith (new_Selector false) (new_Selector false)) (Some "left") None) /\
  (let m := new_Solution (mergedWith (new_Selector false) (new_Selector false)) (Some "left") None in
   sol_mode m = "exists" /\ sol_sel m = mergedWith (new_Selector false) (new_Selector false) /\
   lchecks m = 0 /\ rchecks m = 0 /\ lmatches m = 0 /\ rmatches m = 0 /\ matchedAgainst m = []).
Proof.
  assert (H : Solution_mergedWith (new_Solution (new_Selector false) (Some "left") (Some "unique"))
                      (new_Solution (new_Selector false) (Some "left") (Some "unique")) =
    Some (new_Solution (mergedWith (new_Selector false) (new_Selector false)) (Some "left") None))
    by reflexivity.
  split; [exact H | exact (Solution_mergedWith_mode _ _ _ H)].
Defined.

(** X14: merging two reachable solutions fails exactly when their main sides differ and neither is both; otherwise the result takes the side of the first unless that one is both. *)
Theorem Solution_mergedWith_side (s o : Solution) :
  sol_reachable s -> sol_reachable o ->
  (Solution_mergedWith s o = None <->
   main_side s <> main_side o /\ main_side s <> "both" /\ main_side o <> "both") /\
  (forall m, Solution_mergedWith s o = Some m ->
   main_side m = if String.eqb (main_side s) "both" then main_side o else main_side s).
Proof.
  intros Hs Ho. destruct (sol_reachable_nonempty s Hs) as [Ms _].
  destruct (sol_reachable_nonempty o Ho) as [Mo _].
  unfold Solution_mergedWith.
  destruct (String.eqb (main_side o) (main_side s)) eqn:E1.
  - apply String.eqb_eq in E1. split; [split; [discriminate|intros [H _]; congruence]|].
    intros m [= <-]. cbn [new_Solution setMainSide main_side]. rewrite side_or_both_id by exact Ms.
    destruct (String.eqb (main_side s) "both"); congruence.
  - apply String.eqb_neq in E1.
    destruct (String.eqb (main_side s) "both") eqn:E2.
    + apply String.eqb_eq in E2. split; [split; [discriminate|intros [_ [H _]]; congruence]|].
      intros m [= <-]. cbn [new_Solution setMainSide main_side]. apply side_or_both_id, Mo.
    + apply String.eqb_neq in E2. destruct (String.eqb (main_side o) "both") eqn:E3.
      * apply String.eqb_eq in E3. split; [split; [discriminate|intros [_ [_ H]]; congruence]|].
        intros m [= <-]. cbn [new_Solution setMainSide main_side]. apply side_or_both_id, Ms.
      * apply String.eqb_neq in E3. split; [split; [intros _; auto|reflexivity]|]. discriminate.
Qed.

Lemma Solution_mergedWith_side_witness :
  sol_reachable (new_Solution (new_Selector false) (Some "left") None) /\
  sol_reachable (new_Solution (new_Selector false) (Some "right") None) /\
  (Solution_mergedWith (new_Solution (new_Selector false) (Some "left") None)
                       (new_Solution (new_Selector false) (Some "right") None) = None <->
   main_side (new_Solution (new_Selector false) (Some "left") None) <>
     main_side (new_Solution (new_Selector false) (Some "right") None) /\
   main_side (new_Solution (new_Selector false) (Some "left") None) <> "both" /\
   main_side (new_Solution (new_Selector false) (Some "right") None) <> "both") /\
  (forall m, Solution_mergedWith (new_Solution (new_Selector false) (Some "left") None)
                                 (new_Solution (new_Selector false) (Some "right") None) = Some m ->
   main_side m = if String.eqb (main_side (new_Solution (new_Selector false) (Some "left") None)) "both"
                 then main_side (new_Solution (new_Selector false) (Some "right") None)
                 else main_side (new_Solution (new_Selector false) (Some "left") None)).
Proof.
  assert (H1 : sol_reachable (new_Solution (new_Selector false) (Some "left") None)) by constructor.
  assert (H2 : sol_reachable (new_Solution (new_Selector false) (Some "right") None)) by constructor.
  split; [exact H1|]. split; [exact H2|]. exact (Solution_mergedWith_side _ _ H1 H2).
Defined.

(** X15: merging a reachable solution with a built selector with itself succeeds, and the result equals the original exactly when its mode is exists. *)
Theorem Solution_mergedWith_self (s : Solution) :
  sol_reachable s -> built (sol_sel s) ->
  exists m, Solution_mergedWith s s = Some m /\ (Solution_equals m s = true <-> sol_mode s = "exists").
Proof.
  intros Hr Hb. unfold Solution_mergedWith. rewrite !String.eqb_refl.
  eexists; split; [reflexivity|]. unfold Solution_equals. cbn [new_Solution setMainSide sol_mode sol_sel].
  rewrite (mergedWith_self_wf _ (built_wf _ Hb)).
  destruct (sol_sel s) as [oa ga rs u] eqn:Es. cbn [obj_attrs grp_attrs rels].
  rewrite sel_equals_ignores_unique, andb_true_r, String.eqb_eq. split; congruence.
Qed.

Lemma Solution_mergedWith_self_witness :
  sol_reachable (new_Solution (new_Selector false) (Some "left") (Some "unique")) /\
  built (sol_sel (new_Solution (new_Selector false) (Some "left") (Some "unique"))) /\
  exists m, Solution_mergedWith (new_Solution (new_Selector false) (Some "left") (Some "unique"))
                                (new_Solution (new_Selector false) (Some "left") (Some "unique")) = Some m /\
    (Solution_equals m (new_Solution (new_Selector false) (Some "left") (Some "unique")) = true <->
     sol_mode (new_Solution (new_Selector false) (Some "left") (Some "unique")) = "exists").
Proof.
  assert (Hr : sol_reachable (new_Solution (new_Selector false) (Some "left") (Some "unique"))) by constructor.
  assert (Hb : built (sol_sel (new_Solution (new_Selector false) (Some "left") (Some "unique")))) by constructor.
  split; [exact Hr|]. split; [exact Hb|]. exact (Solution_mergedWith_self _ Hr Hb).
Defined.

(** X16: Solution.compatibleWith is symmetric. *)
Theorem compatibleWith_sym (s o : Solution) : compatibleWith s o = compatibleWith o s.
Proof.
  unfold compatibleWith.
  destruct (Nat.ltb (lmatches s) (lchecks s)), (Nat.ltb (rmatches o) (rchecks o)),
           (Nat.ltb (rmatches s) (rchecks s)), (Nat.ltb (lmatches o) (lchecks o)); reflexivity.
Qed.


Lemma find_other_in (o : nat) (ps : list Percept) (p : Percept) :
  find_other o ps = Some p -> In p ps.
Proof.
  unfold find_other. destruct (filter _ ps) as [|q qs] eqn:E; cbn [head]; [discriminate|].
  intros [= <-]. assert (Hq : q ∈ filter (fun p => bool_decide (pother p = Some o)) ps)
    by (rewrite E; left).
  apply list_elem_of_filter in Hq as [_ Hq]. apply list_elem_of_In, Hq.
Qed.

(** X17: getFromCache never changes the node state, and it returns false, an empty list, or what the cache holds. *)
Theorem getFromCache_unchanged (key : string) (opts : GetOpts) (st : NodeState) (r : GetResult) (st' : NodeState) :
  getFromCache key opts st = Some (r, st') ->
  st' = st /\
  (r = RFalse \/ r = RList [] \/
   exists t e, cache_lookup st t key = Some e /\
     (r = entry_result e \/ exists ps p, e = ERels ps /\ r = RPercept p /\ In p ps)).
Proof.
  unfold getFromCache, node_get. intros H.
  repeat case_match; simplify_eq; unfold getAttr, getRel in H; cbn [opt_cache_only opt_get_all] in H;
    repeat case_match; simplify_eq; split; eauto 10 using find_other_in.
  all: right; right; do 2 eexists; split; [eassumption|]; right; do 2 eexists.
  all: split; [reflexivity|]; split; [reflexivity|]; eapply find_other_in; eassumption.
Qed.

Lemma getFromCache_unchanged_witness :
  getFromCache "shape" (mkGetOpts (Some "start") None false false)
    (set_entry "start" "shape" (EAttr (mkPercept 0 "shape" None (Some "start"))) (mkNodeState empty None 1 0)) =
    Some (RPercept (mkPercept 0 "shape" None (Some "start")),
          set_entry "start" "shape" (EAttr (mkPercept 0 "shape" None (Some "start"))) (mkNodeState empty None 1 0)) /\
  (set_entry "start" "shape" (EAttr (mkPercept 0 "shape" None (Some "start"))) (mkNodeState empty None 1 0) =
   set_entry "start" "shape" (EAttr (mkPercept 0 "shape" None (Some "start"))) (mkNodeState empty None 1 0) /\
  (RPercept (mkPercept 0 "shape" None (Some "start")) = RFalse \/
   RPercept (mkPercept 0 "shape" None (Some "start")) = RList [] \/
   exists t e, cache_lookup (set_entry "start" "shape" (EAttr (mkPercept 0 "shape" None (Some "start"))) (mkNodeState empty None 1 0)) t "shape" = Some e /\
     (RPercept (mkPercept 0 "shape" None (Some "start")) = entry_result e \/
      exists ps p, e = ERels ps /\ RPercept (mkPercept 0 "shape" None (Some "start")) = RPercept p /\ In p ps))).
Proof.
  assert (H : getFromCache "shape" (mkGetOpts (Some "start") None false false)
    (set_entry "start" "shape" (EAttr (mkPercept 0 "shape" None (Some "start"))) (mkNodeState empty None 1 0)) =
    Some (RPercept (mkPercept 0 "shape" None (Some "start")),
          set_entry "start" "shape" (EAttr (mkPercept 0 "shape" None (Some "start"))) (mkNodeState empty None 1 0)))
    by reflexivity.
  split; [exact H | exact (getFromCache_unchanged _ _ _ _ _ H)].
Defined.

Lemma goto_unnamed (t : option string) (st : NodeState) : truthy t = false -> goto_if_named t st = st.
Proof. unfold goto_if_named. intros ->. reflexivity. Qed.

(** X18: a non-constant feature read with no named time while the oracle has no named state leaves the cache unchanged. *)
Theorem get_unnamed_no_cache (key : string) (opts : GetOpts) (st : NodeState) (r : GetResult) (st' : NodeState) :
  truthy (opt_time opts) = false -> truthy (curr_state st) = false ->
  obj_attrs_registry !! key <> Some true -> obj_rels_registry !! key <> Some true ->
  node_get key opts st = Some (r, st') -> times st' = times st.
Proof.
  intros To Tc HA HR. unfold node_get.
  assert (Hres : forall c, c <> true -> resolve_time c opts st = curr_state st).
  { intros c Hc. unfold resolve_time. rewrite To. destruct c; [congruence|reflexivity]. }
  repeat case_match; try discriminate.
  - unfold getAttr. destruct (obj_attrs_registry !! key) as [c|] eqn:E; [|discriminate].
    rewrite Hres by congruence. rewrite goto_unnamed, Tc by exact Tc.
    repeat case_match; intros; unfold new_percept in *; simplify_eq; reflexivity.
  - unfold getRel. destruct (obj_rels_registry !! key) as [c|] eqn:E; [|discriminate].
    rewrite Hres by congruence. rewrite goto_unnamed, Tc by exact Tc.
    repeat case_match; intros; unfold new_percept in *; simplify_eq; reflexivity.
Qed.
Lemma getRel_cases (K : string) (opts : GetOpts) (st : NodeState) (c : bool) (r : GetResult) (st' : NodeState) :
  obj_rels_registry !! K = Some c ->
  getRel K opts st = Some (r, st') ->
  (st' = st /\
   (r = RFalse \/ r = RList [] \/
    (opt_get_all opts = true /\ exists e, cache_lookup st (resolve_time c opts st) K = Some e /\ r = entry_result e) \/
    (exists ps o p, cache_lookup st (resolve_time c opts st) K = Some (ERels ps) /\ opt_other opts = Some o /\
                    find_other o ps = Some p /\ r = RPercept p))) \/
  (exists o p, opt_cache_only opts = false /\ opt_other opts = Some o /\ r = RPercept p /\ pother p = Some o /\
    ((truthy (resolve_time c opts st) = false /\ times st' = times st) \/
     (truthy (resolve_time c opts st) = true /\ exists ps,
        (cache_lookup st (resolve_time c opts st) K = None /\ ps = [] \/
         cache_lookup st (resolve_time c opts st) K = Some (ERels ps) /\ find_other o ps = None) /\
        st' = set_entry (time_key (resolve_time c opts st)) K (ERels (app ps [p]))
                (mkNodeState (times st) (resolve_time c opts st) (S (next_pid st)) (node_obj st))))).
Proof.
  intros HK H. unfold getRel in H. rewrite HK in H. cbv zeta in H.
  generalize dependent (resolve_time c opts st). intros t H.
  unfold goto_if_named, new_percept in H.
  repeat case_match; simplify_eq; rewrite ?cache_lookup_mk in *; simplify_eq.
  all: cbn in *; first [ left; split; [reflexivity|]; naive_solver
                        | right; do 2 eexists; split_and!; try reflexivity; eauto;
                          [ right; split; [first [assumption|reflexivity]|]; eexists; split;
                            [ first [ left; split; [first [assumption|reflexivity]|reflexivity]
                                    | right; split; [first [eassumption|reflexivity]|first [assumption|reflexivity]] ]
                            | reflexivity ] ]
                        | right; do 2 eexists; split_and!; try reflexivity; left; split; reflexivity
                        ].
Qed.

Lemma getAttr_cases (K : string) (opts : GetOpts) (st : NodeState) (c : bool) (r : GetResult) (st' : NodeState) :
  obj_attrs_registry !! K = Some c ->
  getAttr K opts st = Some (r, st') ->
  (st' = st /\
   (r = RFalse \/ exists e, cache_lookup st (resolve_time c opts st) K = Some e /\ r = entry_result e)) \/
  (cache_lookup st (resolve_time c opts st) K = None /\ opt_cache_only opts = false /\
   exists p, r = RPercept p /\
    ((truthy (resolve_time c opts st) = false /\ times st' = times st) \/
     (truthy (resolve_time c opts st) = true /\
      st' = set_entry (time_key (resolve_time c opts st)) K (EAttr p)
              (mkNodeState (times st) (resolve_time c opts st) (S (next_pid st)) (node_obj st))))).
Proof.
  intros HK H. unfold getAttr in H. rewrite HK in H. cbv zeta in H.
  generalize dependent (resolve_time c opts st). intros t H.
  unfold goto_if_named, new_percept in H.
  repeat case_match; simplify_eq; cbn in *.
  all: first [ left; split; [reflexivity|]; first [left; reflexivity | right; eexists; split; reflexivity]
             | right; split; [reflexivity|]; split; [reflexivity|]; eexists; split; [reflexivity|];
               first [ left; split; reflexivity | right; split; reflexivity ] ].
Qed.

Lemma resolve_time_named (c : bool) (opts : GetOpts) (st st' : NodeState) :
  truthy (opt_time opts) = true ->
  resolve_time c opts st' = resolve_time c opts st /\ truthy (resolve_time c opts st) = true.
Proof. unfold resolve_time. intros To. rewrite To. destruct c; auto. Qed.

Lemma getRel_named_hit (K : string) (opts : GetOpts) (st : NodeState) (c : bool) (t : string) (o : nat)
    (ps : list Percept) (p : Percept) :
  obj_rels_registry !! K = Some c ->
  resolve_time c opts st = Some t -> opt_get_all opts = false -> opt_other opts = Some o ->
  cache_lookup st (Some t) K = Some (ERels ps) -> find_other o ps = Some p ->
  getRel K opts st = Some (RPercept p, st).
Proof.
  intros HK Ht Ha Ho Hc Hf. unfold getRel. rewrite HK. cbv zeta. rewrite Ht, Hc, Ha.
  destruct ps as [|q qs]; [discriminate|]. rewrite Ho, Hf. reflexivity.
Qed.

(** X19: reading a feature a second time with the same named time gives the same result and state as the first read (for single results, without get_all). *)
Theorem get_repeat_cached (key : string) (opts : GetOpts) (st : NodeState) (r : GetResult) (st' : NodeState) :
  truthy (opt_time opts) = true -> opt_get_all opts = false ->
  node_get key opts st = Some (r, st') -> node_get key opts st' = Some (r, st').
Proof.
  intros To Ha H. unfold node_get in *.
  destruct (obj_attrs_registry !! key) as [c|] eqn:HA.
  - rewrite bool_decide_true in * by (eexists; reflexivity).
    destruct (getAttr_cases key opts st c r st' HA H) as [[-> _]|[_ [_ [p [-> [[Tf _]|[_ ->]]]]]]];
      [exact H| |].
    + destruct (resolve_time_named c opts st st To) as [_ Tt]. congruence.
    + unfold getAttr. rewrite HA. cbv zeta.
      destruct (resolve_time_named c opts st
        (set_entry (time_key (resolve_time c opts st)) key (EAttr p)
          (mkNodeState (times st) (resolve_time c opts st) (S (next_pid st)) (node_obj st))) To)
        as [-> Tt].
      destruct (resolve_time c opts st) as [tn|]; [|discriminate Tt].
      cbn [time_key]. rewrite cache_set. reflexivity.
  - rewrite bool_decide_false in * by (intros [? ?]; discriminate).
    destruct (obj_rels_registry !! key) as [c|] eqn:HR; [|discriminate].
    rewrite bool_decide_true in * by (eexists; reflexivity).
    destruct (getRel_cases key opts st c r st' HR H) as [[-> _]|[o [p [_ [Ho [-> [Hp [[Tf _]|[_ [ps [Hps ->]]]]]]]]]]];
      [exact H| |].
    + destruct (resolve_time_named c opts st st To) as [_ Tt]. congruence.
    + destruct (resolve_time_named c opts st st To) as [_ Tt].
      destruct (resolve_time c opts st) as [tn|] eqn:Et; [|discriminate Tt].
      eapply getRel_named_hit; [exact HR| |exact Ha|exact Ho| |].
      * erewrite (proj1 (resolve_time_named c opts st _ To)). exact Et.
      * cbn [time_key]. apply cache_set.
      * apply find_other_push; [|exact Hp].
        destruct Hps as [[_ ->]|[_ F]]; [reflexivity|exact F].
Qed.

Lemma hasRelation_true_of (rel_activity : Percept -> R) (K tn : string) (c : bool) (o : nat)
    (st : NodeState) (ps : list Percept) (p : Percept) :
  obj_rels_registry !! K = Some c ->
  cache_lookup st (Some tn) K = Some (ERels ps) -> In p ps -> pother p = Some o ->
  hasRelation rel_activity K tn (Rgeb (rel_activity p) activation_threshold) o st = Some true.
Proof.
  intros HK Hc Hin Hp. unfold hasRelation. unfold cache_lookup in Hc. cbn [time_key] in Hc.
  destruct (times st !! tn) as [m|]; cbn in Hc; [|discriminate].
  rewrite HK. cbn [negb bool_decide is_Some]. rewrite bool_decide_true by (eexists; reflexivity).
  cbn [negb]. rewrite Hc. f_equal. apply existsb_exists. exists p. split; [exact Hin|].
  rewrite bool_decide_true by exact Hp. rewrite Bool.eqb_reflx. reflexivity.
Qed.

(** X20: after a non-constant relation is perceived at a named time towards an object, hasRelation for that time, object and the percept activity is true. *)
Theorem hasRelation_after_get (rel_activity : Percept -> R) (K tn : string) (opts : GetOpts) (o : nat)
    (st : NodeState) (p : Percept) (st' : NodeState) :
  obj_attrs_registry !! K = None -> obj_rels_registry !! K = Some false ->
  opt_time opts = Some tn -> tn <> "" -> opt_get_all opts = false -> opt_other opts = Some o ->
  node_get K opts st = Some (RPercept p, st') ->
  hasRelation rel_activity K tn (Rgeb (rel_activity p) activation_threshold) o st' = Some true.
Proof.
  intros HA HR Ht Htn Ha Ho H. unfold node_get in H.
  rewrite bool_decide_false in H by (rewrite HA; intros [? ?]; discriminate).
  rewrite bool_decide_true in H by (rewrite HR; eexists; reflexivity).
  assert (To : truthy (opt_time opts) = true).
  { rewrite Ht. cbn [truthy]. destruct (String.eqb_spec tn ""); [contradiction|reflexivity]. }
  assert (Et : resolve_time false opts st = Some tn).
  { unfold resolve_time. rewrite To. exact Ht. }
  destruct (resolve_time_named false opts st st To) as [_ Tt].
  destruct (getRel_cases K opts st false _ st' HR H)
    as [[-> [?|[?|[[Ha' _]|[ps [o' [q [Hc [Ho' [F [= ->]]]]]]]]]]]|[o' [q [_ [Ho' [[= <-] [Hq [[Tf _]|[_ [ps [_ ->]]]]]]]]]]];
    try discriminate; rewrite ?Et in *.
  - congruence.
  - rewrite Ho in Ho'. injection Ho' as <-.
    eapply hasRelation_true_of; [exact HR|exact Hc|eapply find_other_in, F|eapply find_other_Some, F].
  - congruence.
  - rewrite Ho in Ho'. injection Ho' as <-.
    eapply hasRelation_true_of; [exact HR| cbn [time_key]; apply cache_set | |exact Hq].
    apply in_or_app. right. left. reflexivity.
Qed.

Lemma find_other_None (o : nat) (ps : list Percept) (p : Percept) :
  find_other o ps = None -> In p ps -> pother p <> Some o.
Proof.
  unfold find_other. intros H Hin Hp. destruct (filter _ ps) as [|q qs] eqn:E; [|discriminate].
  assert (Hq : p ∈ filter (fun p => bool_decide (pother p = Some o)) ps).
  { apply list_elem_of_filter. split; [apply bool_decide_pack, Hp|apply list_elem_of_In, Hin]. }
  rewrite E in Hq. apply not_elem_of_nil in Hq. exact Hq.
Qed.

Lemma rels_nodup_times (st st' : NodeState) : times st' = times st -> rels_nodup st -> rels_nodup st'.
Proof. intros Ht H t key ps. unfold cache_lookup. rewrite Ht. apply H. Qed.

Lemma rels_nodup_set (t key : string) (e : Entry) (st : NodeState) :
  rels_nodup st -> (forall ps, e = ERels ps -> NoDup (map pother ps)) -> rels_nodup (set_entry t key e st).
Proof.
  intros H He t' key' ps. rewrite cache_lookup_set. case_bool_decide.
  - intros [= ->]. apply He. reflexivity.
  - apply H.
Qed.

Lemma nodup_push (o : nat) (ps : list Percept) (p : Percept) :
  NoDup (map pother ps) -> find_other o ps = None -> pother p = Some o ->
  NoDup (map pother (app ps [p])).
Proof.
  intros Hnd F Hp. rewrite map_app. apply NoDup_app. split; [exact Hnd|]. split.
  - intros x Hx. apply list_elem_of_In, in_map_iff in Hx as [q [<- Hq]].
    cbn [map]. rewrite list_elem_of_singleton. rewrite Hp.
    exact (find_other_None o ps q F Hq).
  - apply NoDup_singleton.
Qed.

(** X21: ObjectNode.get keeps every cached relation list free of two percepts for the same other object. *)
Theorem get_keeps_rels_nodup (key : string) (opts : GetOpts) (st : NodeState) (r : GetResult) (st' : NodeState) :
  rels_nodup st -> node_get key opts st = Some (r, st') -> rels_nodup st'.
Proof.
  intros Hnd H. unfold node_get in H.
  destruct (obj_attrs_registry !! key) as [c|] eqn:HA.
  - rewrite bool_decide_true in H by (eexists; reflexivity).
    destruct (getAttr_cases key opts st c r st' HA H) as [[-> _]|[_ [_ [p [-> [[_ Ht]|[_ ->]]]]]]].
    + exact Hnd.
    + exact (rels_nodup_times st st' Ht Hnd).
    + apply rels_nodup_set; [exact (rels_nodup_times st _ eq_refl Hnd)|discriminate].
  - rewrite bool_decide_false in H by (intros [? ?]; discriminate).
    destruct (obj_rels_registry !! key) as [c|] eqn:HR; [|discriminate].
    rewrite bool_decide_true in H by (eexists; reflexivity).
    destruct (getRel_cases key opts st c r st' HR H)
      as [[-> _]|[o [p [_ [_ [_ [Hp [[_ Ht]|[Tt [ps [Hps ->]]]]]]]]]]].
    + exact Hnd.
    + exact (rels_nodup_times st st' Ht Hnd).
    + apply rels_nodup_set; [exact (rels_nodup_times st _ eq_refl Hnd)|].
      intros ps' [= <-]. destruct Hps as [[_ ->]|[Hc F]].
      * cbn. constructor; [apply not_elem_of_nil|constructor].
      * rewrite (truthy_Some _ Tt) in Hc. exact (nodup_push o ps p (Hnd _ _ _ Hc) F Hp).
Qed.

Lemma get_unnamed_no_cache_witness :
  node_get "left_pos" (mkGetOpts None None false false) (mkNodeState ∅ None 0 0) =
    Some (RPercept (mkPercept 0 "left_pos" None None), mkNodeState ∅ None 1 0) /\
  times (mkNodeState ∅ None 1 0) = times (mkNodeState ∅ None 0 0).
Proof.
  assert (H : node_get "left_pos" (mkGetOpts None None false false) (mkNodeState ∅ None 0 0) =
    Some (RPercept (mkPercept 0 "left_pos" None None), mkNodeState ∅ None 1 0)) by reflexivity.
  split; [exact H|].
  apply (get_unnamed_no_cache "left_pos" (mkGetOpts None None false false) (mkNodeState ∅ None 0 0)
           (RPercept (mkPercept 0 "left_pos" None None)) (mkNodeState ∅ None 1 0));
    [reflexivity|reflexivity|intros E; vm_compute in E; discriminate E
    |intros E; vm_compute in E; discriminate E|exact H].
Defined.

Lemma get_repeat_cached_witness :
  node_get "touch" (mkGetOpts (Some "t1") (Some 1) false false) (mkNodeState ∅ None 0 0) =
    Some (RPercept (mkPercept 0 "touch" (Some 1) (Some "t1")),
          set_entry "t1" "touch" (ERels [mkPercept 0 "touch" (Some 1) (Some "t1")]) (mkNodeState ∅ (Some "t1") 1 0)) /\
  node_get "touch" (mkGetOpts (Some "t1") (Some 1) false false)
    (set_entry "t1" "touch" (ERels [mkPercept 0 "touch" (Some 1) (Some "t1")]) (mkNodeState ∅ (Some "t1") 1 0)) =
    Some (RPercept (mkPercept 0 "touch" (Some 1) (Some "t1")),
          set_entry "t1" "touch" (ERels [mkPercept 0 "touch" (Some 1) (Some "t1")]) (mkNodeState ∅ (Some "t1") 1 0)).
Proof.
  assert (H : node_get "touch" (mkGetOpts (Some "t1") (Some 1) false false) (mkNodeState ∅ None 0 0) =
    Some (RPercept (mkPercept 0 "touch" (Some 1) (Some "t1")),
          set_entry "t1" "touch" (ERels [mkPercept 0 "touch" (Some 1) (Some "t1")]) (mkNodeState ∅ (Some "t1") 1 0)))
    by reflexivity.
  split; [exact H|]. exact (get_repeat_cached "touch" (mkGetOpts (Some "t1") (Some 1) false false) _ _ _ eq_refl eq_refl H).
Defined.

Lemma hasRelation_after_get_witness :
  node_get "touch" (mkGetOpts (Some "t1") (Some 1) false false) (mkNodeState ∅ None 0 0) =
    Some (RPercept (mkPercept 0 "touch" (Some 1) (Some "t1")),
          set_entry "t1" "touch" (ERels [mkPercept 0 "touch" (Some 1) (Some "t1")]) (mkNodeState ∅ (Some "t1") 1 0)) /\
  hasRelation (fun _ => 1%R) "touch" "t1" (Rgeb 1 activation_threshold) 1
    (set_entry "t1" "touch" (ERels [mkPercept 0 "touch" (Some 1) (Some "t1")]) (mkNodeState ∅ (Some "t1") 1 0)) =
    Some true.
Proof.
  assert (H : node_get "touch" (mkGetOpts (Some "t1") (Some 1) false false) (mkNodeState ∅ None 0 0) =
    Some (RPercept (mkPercept 0 "touch" (Some 1) (Some "t1")),
          set_entry "t1" "touch" (ERels [mkPercept 0 "touch" (Some 1) (Some "t1")]) (mkNodeState ∅ (Some "t1") 1 0)))
    by reflexivity.
  split; [exact H|].
  exact (hasRelation_after_get (fun _ => 1%R) "touch" "t1" (mkGetOpts (Some "t1") (Some 1) false false) 1
           (mkNodeState ∅ None 0 0) _ _ eq_refl eq_refl eq_refl ltac:(discriminate) eq_refl eq_refl H).
Defined.

Lemma get_keeps_rels_nodup_witness :
  rels_nodup (mkNodeState ∅ None 0 0) /\
  node_get "touch" (mkGetOpts (Some "t1") (Some 1) false false) (mkNodeState ∅ None 0 0) =
    Some (RPercept (mkPercept 0 "touch" (Some 1) (Some "t1")),
          set_entry "t1" "touch" (ERels [mkPercept 0 "touch" (Some 1) (Some "t1")]) (mkNodeState ∅ (Some "t1") 1 0)) /\
  rels_nodup (set_entry "t1" "touch" (ERels [mkPercept 0 "touch" (Some 1) (Some "t1")]) (mkNodeState ∅ (Some "t1") 1 0)).
Proof.
  assert (N : rels_nodup (mkNodeState ∅ None 0 0)) by (intros t k ps E; discriminate E).
  assert (H : node_get "touch" (mkGetOpts (Some "t1") (Some 1) false false) (mkNodeState ∅ None 0 0) =
    Some (RPercept (mkPercept 0 "touch" (Some 1) (Some "t1")),
          set_entry "t1" "touch" (ERels [mkPercept 0 "touch" (Some 1) (Some "t1")]) (mkNodeState ∅ (Some "t1") 1 0)))
    by reflexivity.
  split; [exact N|]. split; [exact H|]. exact (get_keeps_rels_nodup _ _ _ _ _ N H).
Defined.

Lemma one_minus_half (y : R) : (1 / 2 <= 1 - y)%R <-> (y <= 1 / 2)%R.
Proof. lra. Qed.

Lemma Q2R_le_iff (q r : Q) : (Q2R q <= Q2R r)%R <-> (q <= r)%Q.
Proof. split; [apply Rle_Qle | apply Qle_Rle]. Qed.

Lemma div_le_iff (a b c : R) : (0 < b)%R -> (a / b <= c)%R <-> (a <= c * b)%R.
Proof.
  intros Hb. assert (E : (a / b * b = a)%R) by (field; lra).
  split; intros H.
  - rewrite <- E. apply Rmult_le_compat_r; lra.
  - apply (Rmult_le_reg_r b); [exact Hb|]. rewrite E. exact H.
Qed.

Lemma div_ge_iff (a b c : R) : (0 < b)%R -> (c <= a / b)%R <-> (c * b <= a)%R.
Proof.
  intros Hb. assert (E : (a / b * b = a)%R) by (field; lra).
  split; intros H.
  - rewrite <- E. apply Rmult_le_compat_r; lra.
  - apply (Rmult_le_reg_r b); [exact Hb|]. rewrite E. exact H.
Qed.

(** X22: the left_pos attribute is active exactly when x is at most 40, the right_pos attribute exactly when x is at least 60, and never both. *)
Theorem left_right_pos_active (x : Q) :
  ((1 / 2 <= left_activity x)%R <-> (x <= 40)%Q) /\
  ((1 / 2 <= right_activity x)%R <-> (60 <= x)%Q) /\
  ~ ((1 / 2 <= left_activity x)%R /\ (1 / 2 <= right_activity x)%R).
Proof.
  assert (L : (1 / 2 <= left_activity x)%R <-> (x <= 40)%Q).
  { unfold left_activity, left_membership. rewrite one_minus_half, sigmoid_half_ge by lra.
    rewrite div_le_iff by lra. rewrite <- (Q2R_le_const _ 40 (4 / 10 * 100)) by (unfold Q2R; simpl; lra).
    reflexivity. }
  assert (Rt : (1 / 2 <= right_activity x)%R <-> (60 <= x)%Q).
  { unfold right_activity, right_membership. rewrite one_minus_half, sigmoid_half_ge by lra.
    rewrite div_le_iff by lra. rewrite Q2R_minus.
    rewrite <- (Q2R_ge_const _ 60 60) by (unfold Q2R; simpl; lra).
    assert (H100 : Q2R 100 = 100%R) by (unfold Q2R; simpl; lra). rewrite H100. lra. }
  split; [exact L|]. split; [exact Rt|]. rewrite L, Rt.
  intros [H1 H2]. pose proof (Qle_trans _ _ _ H2 H1) as H. apply Qle_bool_iff in H.
  vm_compute in H. discriminate H.
Qed.

(** X23: for a positive maxy, the top_pos attribute is active exactly when y is at most 0.45 maxy, the bottom_pos attribute exactly when y is at least 0.7 maxy, and never both. *)
Theorem top_bottom_active (maxy y : Q) :
  (0 < maxy)%Q ->
  ((1 / 2 <= top_activity maxy y)%R <-> (y <= (45 # 100) * maxy)%Q) /\
  ((1 / 2 <= bottom_activity maxy y)%R <-> ((7 # 10) * maxy <= y)%Q) /\
  ~ ((1 / 2 <= top_activity maxy y)%R /\ (1 / 2 <= bottom_activity maxy y)%R).
Proof.
  intros Hm. apply Qlt_Rlt in Hm as Hm'.
  assert (Z : Q2R 0 = 0%R) by (unfold Q2R; simpl; lra). rewrite Z in Hm'.
  assert (T : (1 / 2 <= top_activity maxy y)%R <-> (y <= (45 # 100) * maxy)%Q).
  { unfold top_activity, top_membership. rewrite one_minus_half, sigmoid_half_ge by lra.
    rewrite div_le_iff by exact Hm'. rewrite <- Q2R_le_iff, Q2R_mult.
    replace (Q2R (45 # 100)) with (45 / 100)%R by (unfold Q2R; simpl; lra). reflexivity. }
  assert (B : (1 / 2 <= bottom_activity maxy y)%R <-> ((7 # 10) * maxy <= y)%Q).
  { unfold bottom_activity, bottom_membership. rewrite one_minus_half, sigmoid_half_ge by lra.
    rewrite div_le_iff by exact Hm'. rewrite <- Q2R_le_iff, Q2R_mult, Q2R_minus.
    replace (Q2R (7 # 10)) with (7 / 10)%R by (unfold Q2R; simpl; lra). lra. }
  split; [exact T|]. split; [exact B|]. rewrite T, B. rewrite <- !Q2R_le_iff, !Q2R_mult.
  replace (Q2R (7 # 10)) with (7 / 10)%R by (unfold Q2R; simpl; lra).
  replace (Q2R (45 # 100)) with (45 / 100)%R by (unfold Q2R; simpl; lra). lra.
Qed.

Lemma top_bottom_active_witness :
  (0 < top_maxy None)%Q /\
  ((1 / 2 <= top_activity (top_maxy None) 10)%R <-> (10 <= (45 # 100) * top_maxy None)%Q) /\
  ((1 / 2 <= bottom_activity (top_maxy None) 10)%R <-> ((7 # 10) * top_maxy None <= 10)%Q) /\
  ~ ((1 / 2 <= top_activity (top_maxy None) 10)%R /\ (1 / 2 <= bottom_activity (top_maxy None) 10)%R).
Proof.
  assert (H : (0 < top_maxy None)%Q) by reflexivity.
  split; [exact H | exact (top_bottom_active (top_maxy None) 10 H)].
Defined.

Section AdaptBest.
Variable better : Q -> Q -> bool.
(** [ord p q]: [p] is at least as extreme as [q]. *)
Variable ord : Q -> Q -> Prop.
Hypothesis better_true : forall b p, better b p = true -> ord p b.
Hypothesis better_false : forall b p, better b p = false -> ord b p.
Hypothesis ord_refl : forall p, ord p p.
Hypothesis ord_trans : forall p q r, ord p q -> ord q r -> ord p r.

Lemma adapt_fold_Some (l : list (option (Q * Q))) (x : Q * Q) :
  exists y, fold_left (fun best_obj o =>
    match o with
    | None => best_obj
    | Some (p, s) =>
        match best_obj with
        | None => Some (p, s)
        | Some (best, _) => if better best p then Some (p, s) else best_obj
        end
    end) l (Some x) = Some y.
Proof.
  revert x. induction l as [|[[p s]|] l IH]; intros x; cbn [fold_left]; [eauto| |apply IH].
  destruct x as [b t]. destruct (better b p); apply IH.
Qed.

Lemma adapt_fold_best (l : list (option (Q * Q))) (acc : option (Q * Q)) (p s : Q) :
  fold_left (fun best_obj o =>
    match o with
    | None => best_obj
    | Some (p, s) =>
        match best_obj with
        | None => Some (p, s)
        | Some (best, _) => if better best p then Some (p, s) else best_obj
        end
    end) l acc = Some (p, s) ->
  (acc = Some (p, s) \/ In (Some (p, s)) l) /\
  (forall b t, acc = Some (b, t) -> ord p b) /\
  (forall p' s', In (Some (p', s')) l -> ord p p').
Proof.
  revert acc. induction l as [|o l IH]; intros acc H; cbn [fold_left] in H.
  - subst acc. split; [left; reflexivity|]. split; [intros b t [= -> ->]; apply ord_refl|].
    intros ? ? [].
  - destruct (IH _ H) as [H1 [H2 H3]]. destruct o as [[p0 s0]|].
    + destruct acc as [[b t]|].
      * destruct (better b p0) eqn:Bt.
        -- split; [destruct H1 as [[= -> ->]|H1]; right; [left; reflexivity|right; exact H1]|].
           split.
           ++ intros b' t' [= <- <-]. apply (ord_trans _ p0); [apply (H2 p0 s0 eq_refl)|apply better_true, Bt].
           ++ intros p' s' [[= <- <-]|Hi]; [apply (H2 p0 s0 eq_refl)|apply (H3 _ _ Hi)].
        -- split; [destruct H1 as [H1|H1]; [left; exact H1|right; right; exact H1]|].
           split; [exact H2|].
           intros p' s' [[= <- <-]|Hi]; [|apply (H3 _ _ Hi)].
           apply (ord_trans _ b); [apply (H2 b t eq_refl)|apply better_false, Bt].
      * split; [destruct H1 as [[= -> ->]|H1]; right; [left; reflexivity|right; exact H1]|].
        split; [discriminate|].
        intros p' s' [[= <- <-]|Hi]; [apply (H2 p0 s0 eq_refl)|apply (H3 _ _ Hi)].
    + split; [destruct H1 as [H1|H1]; [left; exact H1|right; right; exact H1]|].
      split; [exact H2|]. intros p' s' [Hi|Hi]; [discriminate|apply (H3 _ _ Hi)].
Qed.

Lemma adapt_best_obj_spec (objs : list (option (Q * Q))) :
  (adapt_best_obj better objs = None <-> Forall (fun o => o = None) objs) /\
  (forall p s, adapt_best_obj better objs = Some (p, s) ->
     In (Some (p, s)) objs /\ forall p' s', In (Some (p', s')) objs -> ord p p').
Proof.
  unfold adapt_best_obj. split.
  - induction objs as [|[[p s]|] l IH]; cbn [fold_left].
    + split; [constructor|reflexivity].
    + split; [|intros F; inversion F; discriminate].
      destruct (adapt_fold_Some l (p, s)) as [y Hy]. rewrite Hy. discriminate.
    + rewrite IH. split; [constructor; [reflexivity|exact H]|intros F; inversion F; assumption].
  - intros p s H. destruct (adapt_fold_best objs None p s H) as [[H1|H1] [_ H3]];
      [discriminate|split; [exact H1|exact H3]].
Qed.
End AdaptBest.

Lemma Qlt_bool_true (x y : Q) : Qlt_bool x y = true -> (x < y)%Q.
Proof.
  unfold Qlt_bool. intros H. apply Qnot_le_lt. intros C. apply Qle_bool_iff in C.
  rewrite C in H. discriminate H.
Qed.

Lemma Qlt_bool_false' (x y : Q) : Qlt_bool x y = false -> (y <= x)%Q.
Proof. unfold Qlt_bool. intros H. apply Qle_bool_iff. destruct (Qle_bool y x); [reflexivity|discriminate]. Qed.

Lemma option_map_snd_None (o : option (Q * Q)) : option_map snd o = None <-> o = None.
Proof. destruct o; cbn; split; intros; congruence. Qed.

(** X24: adaptDomain of the left-most, right-most and top-most attributes fails exactly when no entry is an object node; otherwise it picks the scene coordinate of an object node whose physics coordinate is minimal (maximal for right-most). *)
Theorem extreme_domain (objs : list (option (Q * Q))) :
  (leftmost_x objs = None <-> Forall (fun o => o = None) objs) /\
  (forall lx, leftmost_x objs = Some lx ->
     exists px, In (Some (px, lx)) objs /\ forall px' sx, In (Some (px', sx)) objs -> (px <= px')%Q) /\
  (rightmost_x objs = None <-> Forall (fun o => o = None) objs) /\
  (forall rx, rightmost_x objs = Some rx ->
     exists px, In (Some (px, rx)) objs /\ forall px' sx, In (Some (px', sx)) objs -> (px' <= px)%Q) /\
  (topmost_y objs = None <-> Forall (fun o => o = None) objs) /\
  (forall ty, topmost_y objs = Some ty ->
     exists py, In (Some (py, ty)) objs /\ forall py' sy, In (Some (py', sy)) objs -> (py <= py')%Q).
Proof.
  assert (Min := adapt_best_obj_spec (fun best x => Qlt_bool x best) Qle
    (fun b p H => Qlt_le_weak _ _ (Qlt_bool_true _ _ H)) (fun b p H => Qlt_bool_false' _ _ H)
    Qle_refl Qle_trans objs).
  assert (Max := adapt_best_obj_spec (fun best x => Qlt_bool best x) (fun p q => (q <= p)%Q)
    (fun b p H => Qlt_le_weak _ _ (Qlt_bool_true _ _ H)) (fun b p H => Qlt_bool_false' _ _ H)
    Qle_refl (fun p q r H1 H2 => Qle_trans _ _ _ H2 H1) objs).
  destruct Min as [MinN MinS]. destruct Max as [MaxN MaxS].
  unfold leftmost_x, rightmost_x, topmost_y.
  split; [rewrite <- MinN; apply option_map_snd_None|].
  split; [intros lx H; destruct (adapt_best_obj (fun best x => Qlt_bool x best) objs) as [[p s]|] eqn:E; [|discriminate];
          injection H as <-; exists p; exact (MinS p s eq_refl)|].
  split; [rewrite <- MaxN; apply option_map_snd_None|].
  split; [intros rx H; destruct (adapt_best_obj (fun best x => Qlt_bool best x) objs) as [[p s]|] eqn:E; [|discriminate];
          injection H as <-; exists p; exact (MaxS p s eq_refl)|].
  split; [rewrite <- MinN; apply option_map_snd_None|].
  intros ty H; destruct (adapt_best_obj (fun best x => Qlt_bool x best) objs) as [[p s]|] eqn:E; [|discriminate].
  injection H as <-; exists p; exact (MinS p s eq_refl).
Qed.

(** X25: the left-most, right-most and top-most attributes are active exactly when the coordinate is within 8 of the extreme one. *)
Theorem extreme_active_iff (val extreme : Q) :
  (1 / 2 <= extreme_membership val extreme)%R <-> (Qabs (val - extreme) <= 8)%Q.
Proof.
  unfold extreme_membership. rewrite close_membership_half.
  rewrite <- !Q2R_le_iff, Q2R_mult.
  replace (Q2R (5 # 2)) with (5 / 2)%R by (unfold Q2R; simpl; lra).
  replace (Q2R 20) with 20%R by (unfold Q2R; simpl; lra).
  replace (Q2R 8) with 8%R by (unfold Q2R; simpl; lra). lra.
Qed.

Lemma sigmoid_lt_1 (a m x : R) : (sigmoid a m x < 1)%R.
Proof.
  unfold sigmoid. pose proof (exp_pos (a * (m - x))) as E.
  rewrite Rdiv_1_l. rewrite <- Rinv_1. apply Rinv_lt_contravar; lra.
Qed.

Lemma sigmoid_pos (a m x : R) : (0 < sigmoid a m x)%R.
Proof.
  unfold sigmoid. pose proof (exp_pos (a * (m - x))) as E.
  rewrite Rdiv_1_l. apply Rinv_0_lt_compat. lra.
Qed.

(** X26: the single attribute is 0 for a distance of at most 0.5 to the closest body, and it is active exactly when that distance is at least 3. *)
Theorem single_active_iff (val : Q) :
  ((val <= 1 # 2)%Q -> single_activity val = 0%R) /\
  ((1 / 2 <= single_activity val)%R <-> (3 <= val)%Q).
Proof.
  unfold single_activity, touch_membership.
  destruct (Qle_bool val (1 # 2)) eqn:E.
  - apply Qle_bool_iff in E.
    assert (Z : Rmax 0 (single_membership val - 1) = 0%R).
    { apply Rmax_left. unfold single_membership. pose proof (sigmoid_lt_1 40 (3 / 100) (Q2R val / 100)). lra. }
    rewrite Z. split; [reflexivity|]. split; [lra|].
    intros H. pose proof (Qle_trans _ _ _ H E) as C. apply Qle_bool_iff in C. vm_compute in C. discriminate C.
  - assert (Z : Rmax 0 (single_membership val - 0) = single_membership val).
    { rewrite Rminus_0_r. apply Rmax_right. unfold single_membership. left. apply sigmoid_pos. }
    rewrite Z. split; [intros H; apply Qle_bool_iff in H; congruence|].
    unfold single_membership. rewrite sigmoid_half_le by lra.
    rewrite div_ge_iff by lra.
    rewrite <- (Q2R_ge_const _ 3 (3 / 100 * 100)) by (unfold Q2R; simpl; lra). reflexivity.
Qed.

(** X27: at most one of left_of and right_of is nonzero, their difference is the difference of the analyser memberships, beside is its absolute value, and the same holds for above and below. *)
Theorem spatial_rel_vals (l r a b : R) :
  (left_of_val l r = 0%R \/ right_of_val l r = 0%R) /\
  (left_of_val l r - right_of_val l r = l - r)%R /\
  beside_val l r = Rabs (l - r) /\
  (above_val a b = 0%R \/ below_val a b = 0%R) /\
  (above_val a b - below_val a b = a - b)%R.
Proof.
  unfold left_of_val, right_of_val, beside_val, above_val, below_val, Rmax, Rabs.
  repeat split; repeat destruct Rle_dec; repeat destruct Rcase_abs; lra.
Qed.

(** X28: the hits value of A towards B is the gets_hit value of B towards A, and the collides value is symmetric. *)
Theorem collisions_symmetric (colls : list Collision) (A B : nat) :
  hits_val colls A B = gets_hit_val colls B A /\ collides_val colls A B = collides_val colls B A.
Proof.
  unfold hits_val, gets_hit_val, collides_val. split; f_equal; apply List.filter_ext; intros c;
    destruct (Nat.eqb (coll_a c) A), (Nat.eqb (coll_b c) B), (Nat.eqb (coll_a c) B), (Nat.eqb (coll_b c) A);
    reflexivity.
Qed.
